(** * lakery: tag grammar, validator registry, runtime engine and static
      tag analyzer, embedded from the Go sources.

    Go strings are byte strings; they are modelled as [string] (one [ascii]
    per byte).  The loops [for i, r := range s] decode runes, but the three
    runes the splitter looks at are ASCII, a byte below 0x80 is always
    decoded as a rune of its own (also inside ill-formed UTF-8), and [i] is
    the byte offset of the rune: looking at every byte in turn visits the
    same braces and commas at the same offsets. *)

From Stdlib Require Import ZArith Lia Bool Ascii String List.
From stdpp Require Import base gmap strings list.

Set Warnings "-register-all".

Local Open Scope string_scope.
Local Open Scope list_scope.
Local Open Scope Z_scope.

(** ** Strings *)

Module Str.

(** [s[lo:hi]] of Go, for [0 <= lo <= hi <= len(s)] (outside of these
    bounds Go panics; the splitter never leaves them, see
    [split_loop_inv]). *)
Definition slice (s : string) (lo hi : nat) : string :=
  substring lo (hi - lo) s.

Definition byte (c : ascii) : nat := nat_of_ascii c.

(** The ASCII white space of [unicode.IsSpace]: '\t', '\n', '\v', '\f',
    '\r' and ' '. *)
Definition asciiSpace (c : ascii) : bool :=
  ((9 <=? byte c)%nat && (byte c <=? 13)%nat) || (byte c =? 32)%nat.

(** The white space of [unicode.IsSpace] with a two-byte encoding:
    U+0085 (C2 85) and U+00A0 (C2 A0). *)
Definition space2 (c1 c2 : ascii) : bool :=
  (byte c1 =? 194)%nat && ((byte c2 =? 133)%nat || (byte c2 =? 160)%nat).

(** With a three-byte encoding: U+1680 (E1 9A 80), U+2000 to U+200A
    (E2 80 80 to E2 80 8A), U+2028, U+2029, U+202F (E2 80 A8, A9, AF),
    U+205F (E2 81 9F) and U+3000 (E3 80 80). *)
Definition space3 (c1 c2 c3 : ascii) : bool :=
  ((byte c1 =? 225)%nat && (byte c2 =? 154)%nat && (byte c3 =? 128)%nat)
  || ((byte c1 =? 226)%nat && (byte c2 =? 128)%nat &&
      (((128 <=? byte c3)%nat && (byte c3 <=? 138)%nat)
       || (byte c3 =? 168)%nat || (byte c3 =? 169)%nat
       || (byte c3 =? 175)%nat))
  || ((byte c1 =? 226)%nat && (byte c2 =? 129)%nat && (byte c3 =? 159)%nat)
  || ((byte c1 =? 227)%nat && (byte c2 =? 128)%nat && (byte c3 =? 128)%nat).

(** [strings.TrimLeftFunc(s, unicode.IsSpace)]: a well-formed encoding at
    the front of [s] is decoded to its rune whatever follows it, and an
    ill-formed one to U+FFFD, which is not white space. *)
Fixpoint trimLeft (s : string) : string :=
  match s with
  | EmptyString => EmptyString
  | String c1 s1 =>
    if asciiSpace c1 then trimLeft s1
    else match s1 with
         | EmptyString => s
         | String c2 s2 =>
           if space2 c1 c2 then trimLeft s2
           else match s2 with
                | EmptyString => s
                | String c3 s3 =>
                  if space3 c1 c2 c3 then trimLeft s3 else s
                end
         end
  end.

(** [strings.TrimRightFunc(s, unicode.IsSpace)] on the reversed string:
    [utf8.DecodeLastRuneInString] yields a white-space rune exactly when
    the string ends with the encoding of one. *)
Fixpoint trimLeftRev (s : string) : string :=
  match s with
  | EmptyString => EmptyString
  | String c1 s1 =>
    if asciiSpace c1 then trimLeftRev s1
    else match s1 with
         | EmptyString => s
         | String c2 s2 =>
           if space2 c2 c1 then trimLeftRev s2
           else match s2 with
                | EmptyString => s
                | String c3 s3 =>
                  if space3 c3 c2 c1 then trimLeftRev s3 else s
                end
         end
  end.

Definition trimRight (s : string) : string :=
  String.rev (trimLeftRev (String.rev s)).

(** [strings.TrimSpace] *)
Definition TrimSpace (s : string) : string := trimRight (trimLeft s).

(** [strings.HasPrefix] and [strings.HasSuffix] *)
Definition HasPrefix (s pre : string) : bool := String.prefix pre s.
Definition HasSuffix (s suf : string) : bool :=
  String.prefix (String.rev suf) (String.rev s).

(** [strings.SplitN(s, "=", 2)]: [s] alone when it holds no "=", and
    otherwise the text before and the text after the first "=".  The
    result is a pair whose second component is present exactly when
    [len(splitted) == 2]. *)
Fixpoint SplitN2 (s : string) : string * option string :=
  match s with
  | EmptyString => (EmptyString, None)
  | String c s' =>
    if Ascii.eqb c "=" then (EmptyString, Some s')
    else let '(k, v) := SplitN2 s' in (String c k, v)
  end.

(** [strings.Join] *)
Definition Join (elems : list string) (sep : string) : string :=
  String.concat sep elems.

Definition digit (c : ascii) : option Z :=
  if ((48 <=? byte c)%nat && (byte c <=? 57)%nat)
  then Some (Z.of_nat (byte c) - 48) else None.

Fixpoint digits (s : string) (acc : Z) : option Z :=
  match s with
  | EmptyString => Some acc
  | String c s' =>
    match digit c with
    | Some d => digits s' (acc * 10 + d)
    | None => None
    end
  end.

(** [strconv.Atoi] on a platform with 64-bit [int]: an optional sign, then
    one or more decimal digits, the value within the range of [int].  The
    failure stands for the [*strconv.NumError] of that input. *)
Definition Atoi (s : string) : option Z :=
  match s with
  | EmptyString => None
  | String c s' =>
    let neg := Ascii.eqb c "-" in
    let body := if neg || Ascii.eqb c "+" then s' else s in
    match body with
    | EmptyString => None
    | _ =>
      match digits body 0 with
      | None => None
      | Some n =>
        let v := if neg then - n else n in
        if (v <? - 2 ^ 63) || (2 ^ 63 <=? v) then None else Some v
      end
    end
  end.

End Str.

Arguments Str.TrimSpace : simpl never.

(** ** Errors of the package

    [fmt.Errorf] and [errors.New] values are kept as constructors carrying
    the arguments of the format string (the type of a value, printed with
    %s, as its kind). *)

Inductive brace_error : Type :=
  | UnopenedBraces (s : string)    (* "unopened braces in %q" *)
  | UnclosedBraces (s : string).   (* "unclosed braces in %q" *)

(** ** Grammar parser of the runtime engine *)

Record split_state : Type := SplitState {
  parts : list string;
  depth : Z;
  last  : nat
}.

(** One iteration of the [for i, r := range s] loop.  [depth] is a Go [int];
    it moves by one per byte, and a string is shorter than 2^63 bytes, so
    the counter never wraps and is kept as a [Z]. *)
Definition split_step (s : string) (st : split_state) (i : nat) (r : ascii)
  : split_state :=
  if Ascii.eqb r "{" then
    SplitState (parts st) (depth st + 1) (last st)
  else if Ascii.eqb r "}" then
    SplitState (parts st) (depth st - 1) (last st)
  else if Ascii.eqb r "," then
    if depth st =? 0 then
      SplitState (parts st ++ [Str.slice s (last st) i]) (depth st) (i + 1)%nat
    else st
  else st.

Fixpoint split_loop (s rest : string) (i : nat) (st : split_state)
  : split_state :=
  match rest with
  | EmptyString => st
  | String r rest' => split_loop s rest' (S i) (split_step s st i r)
  end.

Definition splitTopLevelByComma (s : string) : list string + brace_error :=
  let st := split_loop s s 0 (SplitState [] 0 0) in
  let parts := parts st ++ [Str.slice s (last st) (String.length s)] in
  if depth st <? 0 then inr (UnopenedBraces s)
  else if 0 <? depth st then inr (UnclosedBraces s)
  else inl parts.

(** ** Reflected values

    What the package reads of a [reflect.Value]: its kind, and per kind the
    data the validators look at.  The sized kinds are grouped the way the
    [switch] statements of the built-ins group them: [VInt] holds the
    [int64] of [rv.Int()] for Int to Int64, [VUint] the [uint64] of
    [rv.Uint()] for Uint to Uintptr, [VFloat] the [float64] of [rv.Float()]
    for both float kinds. *)

(** A [float64]: not-a-number, an infinity, or the finite value
    [(-1)^neg * m * 2^e]. *)
Inductive float64 : Type :=
  | FNaN
  | FInf (neg : bool)
  | FFin (neg : bool) (m : N) (e : Z).

(** [reflect.StructTag] holds [key:"value"] pairs; [Get] returns the value
    of the first pair with the key, and the empty string without one. *)
Definition StructTag : Type := list (string * string).

Fixpoint Get (tag : StructTag) (key : string) : string :=
  match tag with
  | [] => ""
  | (k, v) :: tag' => if String.eqb k key then v else Get tag' key
  end.

Record StructField : Type := mkStructField {
  Name : string;
  Tag  : StructTag
}.

Inductive Kind : Type :=
  | Invalid | Bool | Int | Uint | Float | String_ | Slice | Array | Map
  | Pointer | Struct | OtherKind.

Inductive rvalue : Type :=
  | VInvalid                                   (* the zero [reflect.Value] *)
  | VBool (b : bool)
  | VInt (n : Z)
  | VUint (n : Z)
  | VFloat (f : float64)
  | VString (s : string)
  | VNilSlice
  | VSlice (elems : list rvalue)
  | VArray (elems : list rvalue)
  | VNilMap
  | VMap (entries : list (rvalue * rvalue))
  | VPtr (target : option rvalue)
  | VStruct (fields : list (StructField * rvalue))
  | VOther (isZero : bool).    (* complex, chan, func, interface, ... *)

Definition kind (rv : rvalue) : Kind :=
  match rv with
  | VInvalid => Invalid
  | VBool _ => Bool
  | VInt _ => Int
  | VUint _ => Uint
  | VFloat _ => Float
  | VString _ => String_
  | VNilSlice | VSlice _ => Slice
  | VArray _ => Array
  | VNilMap | VMap _ => Map
  | VPtr _ => Pointer
  | VStruct _ => Struct
  | VOther _ => OtherKind
  end.

(** [rv.Len()] for the kinds the built-ins call it on. *)
Definition Len (rv : rvalue) : Z :=
  match rv with
  | VString s => Z.of_nat (String.length s)
  | VSlice elems | VArray elems => Z.of_nat (List.length elems)
  | VMap entries => Z.of_nat (List.length entries)
  | _ => 0
  end.

(** The elements [rv.Index(0)], ..., [rv.Index(rv.Len()-1)] of a slice or
    an array. *)
Definition elements_of (rv : rvalue) : list rvalue :=
  match rv with
  | VSlice elems | VArray elems => elems
  | _ => []
  end.

(** [rv.Elem()] of a pointer: the zero Value for a nil pointer. *)
Definition Elem (rv : rvalue) : rvalue :=
  match rv with
  | VPtr (Some target) => target
  | _ => VInvalid
  end.

(** [rv.IsZero()] *)
Fixpoint IsZero (rv : rvalue) : bool :=
  match rv with
  | VInvalid => true
  | VBool b => negb b
  | VInt n | VUint n => n =? 0
  | VFloat f =>
    match f with FFin false m _ => (m =? 0)%N | _ => false end
  | VString s => (String.length s =? 0)%nat
  | VNilSlice | VNilMap => true
  | VSlice _ | VMap _ => false
  | VArray elems => forallb IsZero elems
  | VPtr target => match target with None => true | Some _ => false end
  | VStruct fields => forallb (fun fv => IsZero (snd fv)) fields
  | VOther z => z
  end.

(** ** Floating-point comparison against an integer parameter *)

Definition signed (neg : bool) (m : N) : Z :=
  if neg then - Z.of_N m else Z.of_N m.

(** [a < b] of two [float64]s. *)
Definition float_ltb (a b : float64) : bool :=
  match a, b with
  | FNaN, _ | _, FNaN => false
  | FInf na, FInf nb => na && negb nb
  | FInf na, FFin _ _ _ => na
  | FFin _ _ _, FInf nb => negb nb
  | FFin na ma ea, FFin nb mb eb =>
    let e0 := Z.min ea eb in
    signed na ma * 2 ^ (ea - e0) <? signed nb mb * 2 ^ (eb - e0)
  end.

(** The magnitude of [float64(n)]: [a] itself below 2^53, and otherwise [a]
    rounded to 53 significant bits, ties to even. *)
Definition round53 (a : Z) : Z :=
  if a <? 2 ^ 53 then a
  else
    let sh := Z.log2 a - 52 in
    let q := a / 2 ^ sh in
    let r := a mod 2 ^ sh in
    let half := 2 ^ (sh - 1) in
    let q' := if (half <? r) || ((r =? half) && Z.odd q) then q + 1 else q in
    q' * 2 ^ sh.

(** The conversion [float64(n)] of an [int]. *)
Definition float64_of_int (n : Z) : float64 :=
  FFin (n <? 0) (Z.to_N (round53 (Z.abs n))) 0.

(** The conversion [uint64(n)] of an [int]. *)
Definition uint64_of_int (n : Z) : Z := n mod 2 ^ 64.

(** ** Errors returned by validation *)

Inductive error : Type :=
  | GrammarError (e : brace_error)
  | EachNotSlice         (* "each can be used only with slice or array" *)
  | MinParam (param : string)    (* "min expects integer param: %w" *)
  | MinLength (min : Z)          (* "should have length at least %d" *)
  | MinValue (min : Z)           (* "should be >= %d" *)
  | MinNotApplicable (k : Kind)  (* "min is not applicable to type %s" *)
  | MaxParam (param : string)    (* "max expects integer param: %w" *)
  | MaxLength (max : Z)          (* "should have length at most %d" *)
  | MaxValue (max : Z)           (* "should be <= %d" *)
  | MaxNotApplicable (k : Kind)  (* "max is not applicable to type %s" *)
  | IsRequired                   (* "is required" *)
  | CannotValidateNil            (* "cannot validate nil" *)
  | OnlyStructs                  (* "can only validate structs" *)
  | FieldError (field : string) (cause : error) (received : rvalue)
      (* "field %q validation error: %w (received: '%v')" *)
  | OtherError (msg : string).   (* an error of a custom validator *)

(** A call either returns or panics. *)
Inductive result (A : Type) : Type :=
  | Ret (a : A)
  | Panic (msg : string).
Arguments Ret {A} a.
Arguments Panic {A} msg.

Definition bind {A B : Type} (r : result A) (k : A -> result B) : result B :=
  match r with
  | Ret a => k a
  | Panic msg => Panic msg
  end.

(** A Go [error]: [None] is [nil]. *)
Abbreviation nil_error := (@None error).

(** ** [Value], the argument of a validator *)

Record Value : Type := mkValue {
  val   : rvalue;
  name  : string;
  param : string
}.

(** [Value.Param]: panics with "requested param value for %q is not set"
    when the stored parameter is the empty string. *)
Definition Param (v : Value) : result string :=
  if String.eqb (param v) "" then Panic (name v) else Ret (param v).

(** A validator is a Go function value; it is taken to be a function of its
    argument that returns or panics. *)
Definition TagValidationFunc : Type := Value -> result (option error).

(** ** Built-in validators *)

Definition minTag : string := "min".
Definition maxTag : string := "max".
Definition eachTag : string := "each".
Definition diveTag : string := "dive".
Definition requiredTag : string := "required".
Definition mainTag : string := "lakery".

(** The [switch k] of [builtinMin], on the value left after the pointer
    has been followed. *)
Definition minCheck (min : Z) (rv : rvalue) : option error :=
  match rv with
  | VString _ | VArray _ | VSlice _ | VNilSlice | VMap _ | VNilMap =>
    if Len rv <? min then Some (MinLength min) else None
  | VInt n =>
    if n <? min then Some (MinValue min) else None
  | VUint n =>
    if n <? uint64_of_int min then Some (MinValue min) else None
  | VFloat f =>
    if float_ltb f (float64_of_int min) then Some (MinValue min) else None
  | _ => Some (MinNotApplicable (kind rv))
  end.

Definition builtinMin (v : Value) : result (option error) :=
  bind (Param v) (fun minStr =>
  match Str.Atoi minStr with
  | None => Ret (Some (MinParam minStr))
  | Some min =>
    match val v with
    | VPtr None =>
      (* nil pointer fails len-based checks; consider nil < min unless
         min <= 0 *)
      if 0 <? min then Ret (Some (MinLength min)) else Ret None
    | VPtr (Some target) => Ret (minCheck min target)
    | rv => Ret (minCheck min rv)
    end
  end).

(** The [switch k] of [builtinMax]. *)
Definition maxCheck (max : Z) (rv : rvalue) : option error :=
  match rv with
  | VString _ | VArray _ | VSlice _ | VNilSlice | VMap _ | VNilMap =>
    if max <? Len rv then Some (MaxLength max) else None
  | VInt n =>
    if max <? n then Some (MaxValue max) else None
  | VUint n =>
    if uint64_of_int max <? n then Some (MaxValue max) else None
  | VFloat f =>
    if float_ltb (float64_of_int max) f then Some (MaxValue max) else None
  | _ => Some (MaxNotApplicable (kind rv))
  end.

Definition builtinMax (v : Value) : result (option error) :=
  bind (Param v) (fun maxStr =>
  match Str.Atoi maxStr with
  | None => Ret (Some (MaxParam maxStr))
  | Some max =>
    match val v with
    | VPtr None =>
      (* nil pointer has length 0; only passes if max >= 0 *)
      Ret None
    | VPtr (Some target) => Ret (maxCheck max target)
    | rv => Ret (maxCheck max rv)
    end
  end).

Definition builtinRequired (v : Value) : result (option error) :=
  match val v with
  | VPtr None => Ret (Some IsRequired)
  | VPtr (Some target) =>
    if IsZero target then Ret (Some IsRequired) else Ret None
  | rv => if IsZero rv then Ret (Some IsRequired) else Ret None
  end.

(** ** Validator registry *)

Record Validator : Type := mkValidator {
  validators : gmap string TagValidationFunc
}.

Definition RegisterTag (tag : string) (fn : TagValidationFunc) (v : Validator)
  : Validator :=
  mkValidator (<[tag := fn]> (validators v)).

Definition registerBuiltins (v : Validator) : Validator :=
  RegisterTag requiredTag builtinRequired
    (RegisterTag maxTag builtinMax
      (RegisterTag minTag builtinMin v)).

Definition NewValidator : Validator :=
  registerBuiltins (mkValidator ∅).

(** [ListValidators] returns the keys in the unspecified order of a Go map
    iteration; the model keeps the set of them. *)
Definition ListValidators (v : Validator) : gset string :=
  dom (validators v).

(** ** Runtime validation engine

    The engine returns, next to its result, the validators it dispatched, in
    order: the registered name and the [Value] handed to the callback. *)

Definition call : Type := string * Value.
Definition run : Type := list call * result (option error).

(** [CurrentErrorFormatFunc] is a package variable holding a function; the
    engine reads it, so it is passed along.  A formatter may return [nil]. *)
Definition ErrorFormatFunc : Type :=
  StructField -> rvalue -> error -> option error.

Definition defaultErrorFormat : ErrorFormatFunc :=
  fun fieldType fieldValue err =>
    Some (FieldError (Name fieldType) err fieldValue).

(** Sequencing inside a loop: the next iteration runs only when the one
    before returned a nil error; a non-nil error or a panic leaves the
    function at once. *)
Definition andThen (a b : run) : run :=
  match a with
  | (t, Ret None) => (t ++ fst b, snd b)
  | _ => a
  end.

(** The body of a [for] loop run on each element in order. *)
Fixpoint for_each {A : Type} (body : A -> run) (xs : list A) : run :=
  match xs with
  | [] => ([], Ret None)
  | x :: xs' => andThen (body x) (for_each body xs')
  end.

(** [if validator, ok := v.validators[key]; ok { ... }] *)
Definition dispatch (v : Validator) (fmt : ErrorFormatFunc)
    (fieldType : StructField) (reported : rvalue) (key : string)
    (arg : Value) : run :=
  match validators v !! key with
  | Some validator =>
    ([(key, arg)],
     bind (validator arg) (fun err =>
       match err with
       | Some e => Ret (fmt fieldType reported e)
       | None => Ret None
       end))
  | None => ([], Ret None)
  end.

(** The [Value] built for one segment: the parameter is stored only when
    [SplitN] returned two pieces. *)
Definition segmentValue (rv : rvalue) (fieldName : string) (tag : string)
  : string * Value :=
  let '(key, rest) := Str.SplitN2 tag in
  let p := match rest with
           | Some r => Str.TrimSpace r
           | None => ""
           end in
  (Str.TrimSpace key, mkValue rv fieldName p).

(** The text between the outer braces of an each parameter. *)
Definition stripBraces (inner : string) : string :=
  if Str.HasPrefix inner "{" && Str.HasSuffix inner "}"
  then Str.TrimSpace (Str.slice inner 1 (String.length inner - 1))
  else inner.

(** The inner loop of the each branch, for one element. *)
Definition eachElement (v : Validator) (fmt : ErrorFormatFunc)
    (fieldType : StructField) (innerTags : list string) (elem : rvalue)
  : run :=
  for_each (fun it =>
    let it := Str.TrimSpace it in
    if String.eqb it "" then ([], Ret None)
    else
      let '(innerKey, eVal) := segmentValue elem (Name fieldType) it in
      dispatch v fmt fieldType elem innerKey eVal) innerTags.

(** One iteration of [for _, tag := range tags]. *)
Definition proceedTag (v : Validator) (fmt : ErrorFormatFunc)
    (fieldValue : rvalue) (fieldType : StructField) (tag : string) : run :=
  let tag := Str.TrimSpace tag in
  if String.eqb tag "" then ([], Ret None)
  else
    let '(tagKey, val) := segmentValue fieldValue (Name fieldType) tag in
    if String.eqb tagKey eachTag then
      match kind fieldValue with
      | Slice | Array =>
        match Param val with
        | Panic msg => ([], Panic msg)
        | Ret inner =>
          let inner := stripBraces (Str.TrimSpace inner) in
          match splitTopLevelByComma inner with
          | inr err =>
            ([], Ret (fmt fieldType fieldValue (GrammarError err)))
          | inl innerTags =>
            for_each (eachElement v fmt fieldType innerTags)
                     (elements_of fieldValue)
          end
        end
      | _ => ([], Ret (fmt fieldType fieldValue EachNotSlice))
      end
    else dispatch v fmt fieldType fieldValue tagKey val.

Definition proceedTags (v : Validator) (fmt : ErrorFormatFunc)
    (fieldValue : rvalue) (fieldType : StructField) : run :=
  let rootTag := Get (Tag fieldType) mainTag in
  if String.eqb rootTag "" then ([], Ret None)
  else
    match splitTopLevelByComma rootTag with
    | inr err => ([], Ret (fmt fieldType fieldValue (GrammarError err)))
    | inl tags => for_each (proceedTag v fmt fieldValue fieldType) tags
    end.

Definition validateStruct (v : Validator) (fmt : ErrorFormatFunc)
    (fields : list (StructField * rvalue)) : run :=
  for_each (fun fv => proceedTags v fmt (snd fv) (fst fv)) fields.

(** [Validate]: the receiver may be a nil [*Validator]. *)
Definition Validate (v : option Validator) (fmt : ErrorFormatFunc)
    (s : rvalue) : run :=
  match v with
  | None => ([], Ret (Some CannotValidateNil))
  | Some v =>
    let rv := match kind s with Pointer => Elem s | _ => s end in
    match rv with
    | VStruct fields => validateStruct v fmt fields
    | _ => ([], Ret (Some OnlyStructs))
    end
  end.

(** ** Static tag analyzer ([TagValidator]) *)

Module TagValidator.

Record scan : Type := Scan {
  scan_parts : list string;
  scan_depth : Z;
  scan_last  : nat
}.

Definition step (s : string) (st : scan) (i : nat) (r : ascii) : scan :=
  if Ascii.eqb r "{" then
    Scan (scan_parts st) (scan_depth st + 1) (scan_last st)
  else if Ascii.eqb r "}" then
    Scan (scan_parts st) (scan_depth st - 1) (scan_last st)
  else if Ascii.eqb r "," then
    if scan_depth st =? 0 then
      Scan (scan_parts st ++ [Str.slice s (scan_last st) i])
           (scan_depth st) (i + 1)%nat
    else st
  else st.

Fixpoint loop (s rest : string) (i : nat) (st : scan) : scan :=
  match rest with
  | EmptyString => st
  | String r rest' => loop s rest' (S i) (step s st i r)
  end.

Definition splitTopLevelByComma (s : string) : list string + brace_error :=
  let st := loop s s 0 (Scan [] 0 0) in
  let parts :=
    scan_parts st ++ [Str.slice s (scan_last st) (String.length s)] in
  if scan_depth st <? 0 then inr (UnopenedBraces s)
  else if 0 <? scan_depth st then inr (UnclosedBraces s)
  else inl parts.

(** Built-in validator tags that are always available *)
Definition builtinValidators : gmap string bool :=
  {[ "min" := true; "max" := true; "required" := true;
     "each" := true;    (* special tag *)
     "dive" := true ]}. (* special tag *)

(** [token.Position] of the field, as [fset.Position(pos)] gives it. *)
Record Position : Type := mkPosition {
  Filename : string;
  Line : nat;
  Column : nat
}.

(** The messages of the diagnostics, with the arguments of their format
    strings. *)
Inductive message : Type :=
  | Braces (e : brace_error)            (* err.Error() *)
  | EmptyName                           (* "empty validator name" *)
  | DidYouMean (key rest : string)
      (* "invalid syntax %q - did you mean \"each=%s\"?" *)
  | UnknownValidator (key : string)     (* "unknown validator %q" *)
  | EachSyntax (e : brace_error)
      (* "invalid syntax in each tag: %s" *)
  | ExpectsInteger (validator param : string)
      (* "%s expects integer parameter, got %q" *)
  | RequiredNoParams.
      (* "required validator does not accept parameters" *)

Record TagError : Type := mkTagError {
  Pos : Position;
  Field : string;
  Tag : string;
  Message : message
}.

Record t : Type := mkTagValidator {
  customValidators : gmap string bool;
  errors : list TagError
}.

Definition NewTagValidator : t := mkTagValidator ∅ [].

Definition addError (tv : t) (pos : Position) (field tag : string)
    (msg : message) : t :=
  mkTagValidator (customValidators tv)
                 (errors tv ++ [mkTagError pos field tag msg]).

(** A Go map of [bool] read at a missing key gives [false]. *)
Definition validatorExists (tv : t) (name : string) : bool :=
  default false (builtinValidators !! name)
  || default false (customValidators tv !! name).

Definition validateValidatorParam (tv : t) (pos : Position)
    (fieldName fullTag validator param : string) : t :=
  if String.eqb validator "min" || String.eqb validator "max" then
    match Str.Atoi param with
    | None => addError tv pos fieldName fullTag
                       (ExpectsInteger validator param)
    | Some _ => tv
    end
  else if String.eqb validator "required" then
    if negb (String.eqb param "")
    then addError tv pos fieldName fullTag RequiredNoParams
    else tv
  else tv.

(** [for _, part := range parts], the analyzer threaded through. *)
Fixpoint forParts (body : t -> string -> option t) (tv : t)
    (parts : list string) : option t :=
  match parts with
  | [] => Some tv
  | part :: parts' =>
    match body tv part with
    | Some tv' => forParts body tv' parts'
    | None => None
    end
  end.

(** [validateTagPart] and [validateEachTag] call each other, each time on
    a strictly shorter string.  [fuel] bounds the depth of these calls;
    [None] is returned only when it runs out, which [validateLakeryTag]
    excludes (see [validateLakeryTag_total]). *)
Fixpoint validateTagPart (fuel : nat) (tv : t) (pos : Position)
    (fieldName fullTag part : string) : option t :=
  match fuel with
  | O => None
  | S fuel' =>
    let '(k, rest) := Str.SplitN2 part in
    let key := Str.TrimSpace k in
    if String.eqb key "" then
      Some (addError tv pos fieldName fullTag EmptyName)
    else if String.eqb key "each" then
      match rest with
      | Some r =>
        (* validateEachTag *)
        let value := Str.TrimSpace r in
        let value :=
          if Str.HasPrefix value "{" && Str.HasSuffix value "}"
          then Str.TrimSpace
                 (Str.slice value 1 (String.length value - 1))
          else value in
        if String.eqb value "" then Some tv
        else
          match splitTopLevelByComma value with
          | inr err =>
            Some (addError tv pos fieldName fullTag (EachSyntax err))
          | inl innerParts =>
            forParts (fun tv innerPart =>
              let innerPart := Str.TrimSpace innerPart in
              if String.eqb innerPart "" then Some tv
              else validateTagPart fuel' tv pos fieldName fullTag
                                   innerPart) tv innerParts
          end
      | None => Some tv
      end
    else if negb (validatorExists tv key) then
      if Str.HasPrefix key "each:" then
        Some (addError tv pos fieldName fullTag
                (DidYouMean key (Str.slice key 5 (String.length key))))
      else
        Some (addError tv pos fieldName fullTag (UnknownValidator key))
    else
      match rest with
      | Some r =>
        Some (validateValidatorParam tv pos fieldName fullTag key
                (Str.TrimSpace r))
      | None => Some tv
      end
  end.

Definition validateLakeryTag (tv : t) (pos : Position)
    (fieldName tag : string) : option t :=
  match splitTopLevelByComma tag with
  | inr err => Some (addError tv pos fieldName tag (Braces err))
  | inl parts =>
    forParts (fun tv part =>
      let part := Str.TrimSpace part in
      if String.eqb part "" then Some tv
      else validateTagPart (S (String.length tag)) tv pos fieldName tag
                           part) tv parts
  end.

(** An [ast.Field] of an [ast.StructType]: its names, the [key:"value"] pairs
    that [reflect.StructTag] reads in its tag literal ([None] for a field
    without a tag), and the position [fset.Position(field.Pos())]. *)
Record astField : Type := mkField {
  Names : list string;
  FieldTag : option StructTag;
  FieldPos : Position
}.

Definition fieldName (field : astField) : string :=
  match Names field with
  | n :: _ => n
  | [] => "<embedded>"
  end.

(** The body of the loop of [validateStruct]. *)
Definition validateField (tv : t) (field : astField) : option t :=
  match FieldTag field with
  | None => Some tv
  | Some tag =>
    let lakeryTag := Get tag "lakery" in
    if negb (String.eqb lakeryTag "")
    then validateLakeryTag tv (FieldPos field) (fieldName field) lakeryTag
    else Some tv
  end.

Fixpoint validateStruct (tv : t) (fields : list astField) : option t :=
  match fields with
  | [] => Some tv
  | field :: fields' =>
    match validateField tv field with
    | Some tv' => validateStruct tv' fields'
    | None => None
    end
  end.

(** The analyzer [tv] with the diagnostics [errs] reported before its own. *)
Definition after (errs : list TagError) (tv : t) : t :=
  mkTagValidator (customValidators tv) (errs ++ errors tv).

(** The diagnostics of one field, for the custom validators [cv]. *)
Definition diagnostics (cv : gmap string bool) (field : astField)
  : list TagError :=
  match validateField (mkTagValidator cv []) field with
  | Some tv => errors tv
  | None => []
  end.

End TagValidator.

(** ** Brace depth of a string, as the grammar describes it *)

Definition brace_delta (c : ascii) : Z :=
  if Ascii.eqb c "{" then 1 else if Ascii.eqb c "}" then -1 else 0.

Fixpoint depth_from (d : Z) (s : string) : Z :=
  match s with
  | EmptyString => d
  | String c s' => depth_from (d + brace_delta c) s'
  end.

(** The depth after the full left-to-right scan. *)
Definition final_depth (s : string) : Z := depth_from 0 s.

(** Whether the depth is negative after some prefix of the scan. *)
Fixpoint goes_negative_from (d : Z) (s : string) : bool :=
  match s with
  | EmptyString => false
  | String c s' =>
    (d + brace_delta c <? 0) || goes_negative_from (d + brace_delta c) s'
  end.

Definition goes_negative (s : string) : bool := goes_negative_from 0 s.

(** A string with its ASCII white space removed, and equality up to it. *)
Fixpoint squeeze (s : string) : string :=
  match s with
  | EmptyString => EmptyString
  | String c s' => if Str.asciiSpace c then squeeze s' else String c (squeeze s')
  end.

Definition ws_equiv (a b : string) : Prop := squeeze a = squeeze b.

(** Whether a segment holds an "=", that is, carries a parameter. *)
Fixpoint has_equals (s : string) : bool :=
  match s with
  | EmptyString => false
  | String c s' => Ascii.eqb c "=" || has_equals s'
  end.

(** The segments each followed by a comma. *)
Fixpoint closed_segments (parts : list string) : string :=
  match parts with
  | [] => ""
  | p :: parts' => p +:+ "," +:+ closed_segments parts'
  end.

(** After the bytes [pre] have been scanned, [last] is within [pre] and
    the closed segments followed by the open one spell [pre]. *)
Definition split_inv (s pre : string) (st : split_state) : Prop :=
  (last st <= String.length pre)%nat /\
  closed_segments (parts st)
    +:+ Str.slice s (last st) (String.length pre) = pre.

(** The state of the analyzer's scan that corresponds to a state of the
    engine's scan. *)
Definition to_scan (st : split_state) : TagValidator.scan :=
  TagValidator.Scan (parts st) (depth st) (last st).

(** The value of [float64(n)], as an integer. *)
Definition rounded (n : Z) : Z :=
  signed (n <? 0) (Z.to_N (round53 (Z.abs n))).

(** The value the comparison is made on is an unsigned integer. *)
Definition on_unsigned (rv : rvalue) : bool :=
  match rv with
  | VUint _ | VPtr (Some (VUint _)) => true
  | _ => false
  end.

(** ** The segments of an annotation, read off the grammar

    [segments_from d cur s] scans [s] at depth [d] with [cur] the segment
    read so far: a comma met at depth 0 closes the segment, every other
    byte is added to it. *)
Fixpoint segments_from (d : Z) (cur s : string) : list string :=
  match s with
  | EmptyString => [cur]
  | String c s' =>
    if Ascii.eqb c "," && (d =? 0) then cur :: segments_from d "" s'
    else segments_from (d + brace_delta c) (cur +:+ String c "") s'
  end.

(** The top-level segments of [s]. *)
Definition segments (s : string) : list string := segments_from 0 "" s.

(** Whether a byte occurs in a string. *)
Fixpoint occurs (c : ascii) (s : string) : bool :=
  match s with
  | EmptyString => false
  | String c' s' => Ascii.eqb c' c || occurs c s'
  end.

(** The number of occurrences of a byte. *)
Fixpoint count_byte (c : ascii) (s : string) : nat :=
  match s with
  | EmptyString => 0%nat
  | String c' s' =>
    ((if Ascii.eqb c' c then 1 else 0) + count_byte c s')%nat
  end.

(** A string without braces. *)
Definition brace_free (s : string) : bool :=
  negb (occurs "{" s) && negb (occurs "}" s).

(** [cur] read from depth 0 holds no top-level comma and ends at depth [d]. *)
Definition open_segment (d : Z) (cur : string) : Prop :=
  forall x, segments_from 0 "" (cur +:+ x) = segments_from d cur x.

(** The validator name of a segment, as [proceedTags] and
    [validateTagPart] read it: the trimmed text before the first "=" of the
    trimmed segment. *)
Definition segment_key (seg : string) : string :=
  Str.TrimSpace (fst (Str.SplitN2 (Str.TrimSpace seg))).


(** An error blames the field [(ft, rv)]: it is the default formatter's
    error for that field, reporting the value or one of its elements. *)
Definition error_of_field (ft : StructField) (rv : rvalue) (e : error)
  : Prop :=
  exists cause received,
    e = FieldError (Name ft) cause received /\
    (received = rv \/ In received (elements_of rv)).

(** What min and max measure of a value that is no pointer: a length or a
    signed number. *)
Definition measure (rv : rvalue) : option Z :=
  match rv with
  | VString _ | VArray _ | VSlice _ | VNilSlice | VMap _ | VNilMap =>
    Some (Len rv)
  | VInt n => Some n
  | _ => None
  end.

(** A diagnostic labelled with the field it was found in. *)
Definition labelled (pos : TagValidator.Position) (f tag : string)
    (e : TagValidator.TagError) : Prop :=
  TagValidator.Pos e = pos /\ TagValidator.Field e = f /\
  TagValidator.Tag e = tag.

(** The analysis keeps the registrations and reports labelled diagnostics
    only. *)
Definition kept (pos : TagValidator.Position) (f tag : string)
    (tv tv' : TagValidator.t) : Prop :=
  TagValidator.customValidators tv' = TagValidator.customValidators tv /\
  (Forall (labelled pos f tag) (TagValidator.errors tv) ->
   Forall (labelled pos f tag) (TagValidator.errors tv')).

(** No diagnostic of the analyzer is an "invalid syntax in each tag". *)
Definition no_each_syntax (tv : TagValidator.t) : Prop :=
  Forall (fun e => forall be,
            TagValidator.Message e <> TagValidator.EachSyntax be)
         (TagValidator.errors tv).


(** * Facts *)

Module StrFacts.
Import Str.

Lemma app_cons (c : ascii) (a b : string) :
  String c a +:+ b = String c (a +:+ b).
Proof. reflexivity. Qed.

Lemma app_nil_l (s : string) : "" +:+ s = s.
Proof. reflexivity. Qed.

Lemma app_nil_r (s : string) : s +:+ "" = s.
Proof.
  induction s as [|c s IH]; [done | by rewrite app_cons, IH].
Qed.

Lemma app_assoc (a b c : string) : (a +:+ b) +:+ c = a +:+ (b +:+ c).
Proof.
  induction a as [|x a IH]; [done | by rewrite !app_cons, IH].
Qed.

Lemma length_app (a b : string) :
  String.length (a +:+ b) = (String.length a + String.length b)%nat.
Proof.
  induction a as [|x a IH]; [done | rewrite app_cons; cbn; by rewrite IH].
Qed.

Lemma substring_zero (n : nat) (s : string) : substring n 0 s = "".
Proof.
  revert n; induction s as [|c s IH]; intros [|n]; cbn; try done.
Qed.

Lemma slice_empty (s : string) (i : nat) : slice s i i = "".
Proof. unfold slice. rewrite Nat.sub_diag. apply substring_zero. Qed.

Lemma slice_snoc (pre rest : string) (c : ascii) (lo : nat) :
  (lo <= String.length pre)%nat ->
  slice (pre +:+ String c rest) lo (S (String.length pre)) =
  slice (pre +:+ String c rest) lo (String.length pre) +:+ String c "".
Proof.
  unfold slice. revert lo.
  induction pre as [|a pre IH]; intros lo Hlo; cbn in Hlo.
  - assert (lo = 0%nat) as -> by lia. rewrite app_nil_l. cbn.
    by rewrite substring_zero.
  - destruct lo as [|lo].
    + rewrite !app_cons. cbn. specialize (IH 0%nat ltac:(lia)).
      rewrite !Nat.sub_0_r in IH. by rewrite IH.
    + rewrite !app_cons. cbn [String.length].
      replace (S (S (String.length pre)) - S lo)%nat
        with (S (String.length pre) - lo)%nat by lia.
      replace (S (String.length pre) - S lo)%nat
        with (String.length pre - lo)%nat by lia.
      cbn [substring]. apply IH. lia.
Qed.

Lemma slice_all (s : string) : slice s 0 (String.length s) = s.
Proof.
  unfold slice. rewrite Nat.sub_0_r.
  induction s as [|c s IH]; cbn; [done | by rewrite IH].
Qed.


Lemma closed_segments_app (ps qs : list string) :
  closed_segments (ps ++ qs) = closed_segments ps +:+ closed_segments qs.
Proof.
  induction ps as [|p ps IH]; cbn [closed_segments app]; [done |].
  by rewrite IH, !app_assoc.
Qed.

Lemma Join_snoc (ps : list string) (x : string) :
  Join (ps ++ [x]) "," = closed_segments ps +:+ x.
Proof.
  unfold Join. induction ps as [|p ps IH]; [done |].
  cbn [closed_segments]. rewrite !app_assoc, <- IH.
  destruct ps; reflexivity.
Qed.

End StrFacts.

(** ** The splitter *)

Section Splitter.
Import Str StrFacts.

Lemma split_step_depth (s : string) (st : split_state) (i : nat) (r : ascii) :
  depth (split_step s st i r) = depth st + brace_delta r.
Proof.
  unfold split_step, brace_delta.
  destruct (Ascii.eqb r "{"); [done |].
  destruct (Ascii.eqb r "}"); [cbn; lia |].
  destruct (Ascii.eqb r ","); [| lia].
  destruct (depth st =? 0); cbn; lia.
Qed.

Lemma split_loop_depth (s rest : string) (i : nat) (st : split_state) :
  depth (split_loop s rest i st) = depth_from (depth st) rest.
Proof.
  revert i st; induction rest as [|r rest IH]; intros i st; cbn; [done |].
  by rewrite IH, split_step_depth.
Qed.

Lemma split_step_inv (pre rest : string) (r : ascii) (st : split_state) :
  split_inv (pre +:+ String r rest) pre st ->
  split_inv (pre +:+ String r rest) (pre +:+ String r "")
            (split_step (pre +:+ String r rest) st (String.length pre) r).
Proof.
  intros [Hlast Hspell]. unfold split_inv.
  rewrite length_app. cbn [String.length].
  replace (String.length pre + 1)%nat with (S (String.length pre)) by lia.
  assert (Hkeep :
    (last st <= S (String.length pre))%nat /\
    closed_segments (parts st)
      +:+ slice (pre +:+ String r rest) (last st) (S (String.length pre))
    = pre +:+ String r "").
  { split; [lia |].
    by rewrite slice_snoc, <- app_assoc, Hspell by done. }
  unfold split_step.
  destruct (Ascii.eqb r "{"); [exact Hkeep |].
  destruct (Ascii.eqb r "}"); [exact Hkeep |].
  destruct (Ascii.eqb_spec r ",") as [-> | _]; [| exact Hkeep].
  destruct (depth st =? 0); [| exact Hkeep].
  cbn [parts last]. split; [lia |].
  replace (String.length pre + 1)%nat with (S (String.length pre)) by lia.
  rewrite slice_empty, app_nil_r, closed_segments_app.
  cbn [closed_segments]. rewrite app_nil_r, <- app_assoc.
  by rewrite Hspell.
Qed.

Lemma split_loop_inv (rest pre : string) (st : split_state) :
  split_inv (pre +:+ rest) pre st ->
  split_inv (pre +:+ rest) (pre +:+ rest)
            (split_loop (pre +:+ rest) rest (String.length pre) st).
Proof.
  revert pre st; induction rest as [|r rest IH]; intros pre st Hinv.
  - cbn [split_loop]. by rewrite app_nil_r in *.
  - cbn [split_loop].
    assert (Hs : pre +:+ String r rest = (pre +:+ String r "") +:+ rest)
      by (by rewrite app_assoc).
    assert (Hlen : S (String.length pre) = String.length (pre +:+ String r ""))
      by (rewrite length_app; cbn; lia).
    pose proof (IH (pre +:+ String r "")
                   (split_step (pre +:+ String r rest) st
                               (String.length pre) r)) as Hnext.
    rewrite <- Hs, <- Hlen in Hnext.
    apply Hnext. by apply split_step_inv.
Qed.

Lemma split_loop_spells (s : string) :
  let st := split_loop s s 0 (SplitState [] 0 0) in
  Join (parts st ++ [slice s (last st) (String.length s)]) "," = s.
Proof.
  cbn zeta. rewrite Join_snoc.
  apply (split_loop_inv s "" (SplitState [] 0 0)).
  split; cbn; [lia |]. by rewrite slice_empty.
Qed.

(** The splitter is decided by the final depth alone. *)
Lemma split_by_final_depth (s : string) :
  splitTopLevelByComma s =
    if final_depth s <? 0 then inr (UnopenedBraces s)
    else if 0 <? final_depth s then inr (UnclosedBraces s)
    else inl (parts (split_loop s s 0 (SplitState [] 0 0))
              ++ [slice s (last (split_loop s s 0 (SplitState [] 0 0)))
                        (String.length s)]).
Proof.
  unfold splitTopLevelByComma, final_depth.
  by rewrite split_loop_depth.
Qed.

Lemma split_ok_Join (s : string) (segs : list string) :
  splitTopLevelByComma s = inl segs -> Join segs "," = s.
Proof.
  rewrite split_by_final_depth.
  destruct (final_depth s <? 0); [done |].
  destruct (0 <? final_depth s); [done |].
  intros [= <-]. apply split_loop_spells.
Qed.

Lemma step_agree (s : string) (st : split_state) (i : nat) (r : ascii) :
  TagValidator.step s (to_scan st) i r = to_scan (split_step s st i r).
Proof.
  unfold TagValidator.step, split_step, to_scan; cbn.
  repeat match goal with |- context [if ?b then _ else _] => destruct b end;
    reflexivity.
Qed.

Lemma loop_agree (s rest : string) (i : nat) (st : split_state) :
  TagValidator.loop s rest i (to_scan st) = to_scan (split_loop s rest i st).
Proof.
  revert i st; induction rest as [|r rest IH]; intros i st; cbn; [done |].
  by rewrite step_agree, IH.
Qed.

End Splitter.

(** * The grammar parser *)

(** C1: the splitter of the runtime engine and the splitter of the static
    analyzer compute the same function: on every input they return the same
    ordered list of top-level segments, or fail with the same brace error. *)
Theorem splitters_agree (s : string) :
  TagValidator.splitTopLevelByComma s = splitTopLevelByComma s.
Proof.
  unfold TagValidator.splitTopLevelByComma, splitTopLevelByComma.
  change (TagValidator.Scan [] 0 0) with (to_scan (SplitState [] 0 0)).
  rewrite loop_agree. reflexivity.
Qed.

Lemma depth_from_shift (d : Z) (s : string) :
  depth_from d s = d + final_depth s.
Proof.
  unfold final_depth. revert d.
  induction s as [|c s IH]; intros d; cbn; [lia |].
  rewrite (IH (d + brace_delta c)), (IH (0 + brace_delta c)). lia.
Qed.




(** C7: when the parser succeeds, joining the returned segments with ","
    gives back the annotation, byte for byte and hence also up to white
    space. *)
Theorem split_Join_roundtrip (s : string) (segs : list string) :
  splitTopLevelByComma s = inl segs ->
  Str.Join segs "," = s /\ ws_equiv (Str.Join segs ",") s.
Proof.
  intros Hok. apply split_ok_Join in Hok.
  split; [exact Hok | unfold ws_equiv; by rewrite Hok].
Qed.

Lemma split_Join_roundtrip_witness :
  splitTopLevelByComma "required, each={min=1,max=5} ,max=3"
    = inl ["required"; " each={min=1,max=5} "; "max=3"] /\
  Str.Join ["required"; " each={min=1,max=5} "; "max=3"] ","
    = "required, each={min=1,max=5} ,max=3" /\
  ws_equiv (Str.Join ["required"; " each={min=1,max=5} "; "max=3"] ",")
           "required, each={min=1,max=5} ,max=3".
Proof.
  split; [reflexivity |].
  apply (split_Join_roundtrip "required, each={min=1,max=5} ,max=3").
  reflexivity.
Defined.

(** * The registry and the built-in validators *)

(** C3, as the code has it: a fresh validator has exactly the three names
    "min", "max" and "required" registered, bound to the built-ins; the long
    spellings "minimum" and "maximum" are not registered. *)
Theorem NewValidator_registers_min_max_required :
  validators NewValidator !! "min" = Some builtinMin /\
  validators NewValidator !! "max" = Some builtinMax /\
  validators NewValidator !! "required" = Some builtinRequired /\
  ListValidators NewValidator = {[ "min"; "max"; "required" ]} /\
  validators NewValidator !! "minimum" = None /\
  validators NewValidator !! "maximum" = None.
Proof.
  repeat split; reflexivity.
Qed.

(** C3, as the claim states it, fails: looking up "minimum" or "maximum" in
    a fresh validator finds nothing, and a field tagged with the long
    spelling is not checked at all. *)
Lemma NewValidator_lacks_minimum_maximum :
  validators NewValidator !! "minimum" = None /\
  validators NewValidator !! "maximum" = None /\
  Validate (Some NewValidator) defaultErrorFormat
    (VStruct [(mkStructField "Name" [("lakery", "minimum=5")], VString "a")])
  = ([], Ret None).
Proof. repeat split; reflexivity. Qed.

(** A nil pointer passes max for every parameter that parses. *)
Lemma builtinMax_nil_pointer_passes (fieldName p : string) (N : Z) :
  Str.Atoi p = Some N ->
  builtinMax (mkValue (VPtr None) fieldName p) = Ret None.
Proof.
  intros HN. unfold builtinMax, Param; cbn [param name val].
  destruct (String.eqb_spec p "") as [-> | _]; [discriminate HN |].
  cbn [bind]. by rewrite HN.
Qed.

(** And fails min exactly for a positive parameter. *)
Lemma builtinMin_nil_pointer (fieldName p : string) (N : Z) :
  Str.Atoi p = Some N ->
  builtinMin (mkValue (VPtr None) fieldName p)
  = if 0 <? N then Ret (Some (MinLength N)) else Ret None.
Proof.
  intros HN. unfold builtinMin, Param; cbn [param name val].
  destruct (String.eqb_spec p "") as [-> | _]; [discriminate HN |].
  cbn [bind]. by rewrite HN.
Qed.

(** C4: the code at a nil pointer field tagged "max=-1".  The parameter
    parses to -1, the claim (and the comment in [builtinMax]) wants the
    check 0 <= -1 to fail, and the code returns nil. *)
Theorem builtinMax_nil_pointer_negative_passes :
  Str.Atoi "-1" = Some (-1) /\
  builtinMax (mkValue (VPtr None) "Ptr" "-1") = Ret None /\
  Validate (Some NewValidator) defaultErrorFormat
    (VStruct [(mkStructField "Ptr" [("lakery", "max=-1")], VPtr None)])
  = ([("max", mkValue (VPtr None) "Ptr" "-1")], Ret None).
Proof. repeat split; reflexivity. Qed.

(** C8: the code at an unsigned field holding 5.  "min=0" passes and the
    smaller "min=-1" fails; "max=-1" passes and the larger "max=0" fails:
    [uint64(min)] and [uint64(max)] wrap a negative parameter around. *)
Theorem builtins_not_monotone_on_unsigned :
  builtinMin (mkValue (VUint 5) "N" "0") = Ret None /\
  builtinMin (mkValue (VUint 5) "N" "-1") = Ret (Some (MinValue (-1))) /\
  builtinMax (mkValue (VUint 5) "N" "-1") = Ret None /\
  builtinMax (mkValue (VUint 5) "N" "0") = Ret (Some (MaxValue 0)).
Proof. repeat split; reflexivity. Qed.

(** * Parameters *)

Section Segments.
Import Str StrFacts.

Lemma SplitN2_no_equals (s : string) :
  has_equals s = false -> SplitN2 s = (s, None).
Proof.
  induction s as [|c s IH]; cbn; [done |].
  destruct (Ascii.eqb c "="); cbn; [done |].
  intros H. by rewrite (IH H).
Qed.

Lemma SplitN2_at_equals (k r : string) :
  has_equals k = false -> SplitN2 (k +:+ "=" +:+ r) = (k, Some r).
Proof.
  induction k as [|c k IH]; [done |].
  rewrite app_cons. cbn.
  destruct (Ascii.eqb c "="); cbn; [done |].
  intros H. by rewrite (IH H).
Qed.

Lemma has_equals_cut (s : string) :
  has_equals s = true ->
  exists k r, s = k +:+ "=" +:+ r /\ has_equals k = false.
Proof.
  induction s as [|c s IH]; cbn; [done |].
  destruct (Ascii.eqb_spec c "=") as [-> | Hc]; cbn.
  - intros _. by exists "", s.
  - intros H. destruct (IH H) as (k & r & -> & Hk).
    exists (String c k), r. split; [done |]. cbn.
    destruct (Ascii.eqb_spec c "="); [done | exact Hk].
Qed.

Lemma Param_of_param (rv : rvalue) (n p : string) :
  Param (mkValue rv n p) = if String.eqb p "" then Panic n else Ret p.
Proof. reflexivity. Qed.

End Segments.

(** C5, as the code has it: [Value.Param] fails with the missing-parameter
    panic exactly when the stored parameter is empty, that is, when the
    segment has no "=" or when the text after its first "=" is empty or
    only white space; otherwise it returns that text, trimmed. *)
Theorem Param_panics_iff_parameter_empty
    (rv : rvalue) (fieldName seg : string) :
  (Param (snd (segmentValue rv fieldName seg)) = Panic fieldName <->
     has_equals seg = false \/
     exists k r, seg = k +:+ "=" +:+ r /\ has_equals k = false /\
                 Str.TrimSpace r = "") /\
  (forall k r, seg = k +:+ "=" +:+ r -> has_equals k = false ->
               Str.TrimSpace r <> "" ->
               Param (snd (segmentValue rv fieldName seg))
               = Ret (Str.TrimSpace r)).
Proof.
  assert (Hcut : forall k r, seg = k +:+ "=" +:+ r -> has_equals k = false ->
            Param (snd (segmentValue rv fieldName seg)) =
            if String.eqb (Str.TrimSpace r) "" then Panic fieldName
            else Ret (Str.TrimSpace r)).
  { intros k r -> Hk. unfold segmentValue.
    by rewrite (SplitN2_at_equals k r Hk). }
  split.
  - destruct (has_equals seg) eqn:Heq.
    + destruct (has_equals_cut seg Heq) as (k & r & Hseg & Hk).
      rewrite (Hcut k r Hseg Hk). split.
      * destruct (String.eqb_spec (Str.TrimSpace r) ""); [| done].
        intros _. right. by exists k, r.
      * intros [Hno | (k' & r' & Hseg' & Hk' & Hr')]; [done |].
        rewrite <- (Hcut k r Hseg Hk), (Hcut k' r' Hseg' Hk'), Hr'.
        reflexivity.
    + unfold segmentValue. rewrite (SplitN2_no_equals seg Heq). cbn.
      split; [by left | done].
  - intros k r Hseg Hk Hr. rewrite (Hcut k r Hseg Hk).
    by destruct (String.eqb_spec (Str.TrimSpace r) "").
Qed.

(** C5, as the claim states it, fails on the segment "min=": the parameter
    is present and empty, [Value.Param] panics all the same, and the
    [Value] built is the one built for "min". *)
Lemma Param_panics_on_empty_parameter :
  has_equals "min=" = true /\
  Str.SplitN2 "min=" = ("min", Some "") /\
  Param (snd (segmentValue (VString "abc") "Name" "min=")) = Panic "Name" /\
  segmentValue (VString "abc") "Name" "min="
  = segmentValue (VString "abc") "Name" "min".
Proof. repeat split; reflexivity. Qed.

(** * The runtime engine *)

Section Loops.

Lemma andThen_nil_l (b : run) : andThen ([], Ret None) b = b.
Proof. by destruct b. Qed.




End Loops.


(** C9, as the code has it: for a registry without an entry "dive" (a fresh
    validator is one), a segment whose name is "dive" dispatches no callback
    and returns no error at runtime; the static analyzer knows "dive" as a
    built-in name and reports nothing for it, with or without parameter. *)
Theorem dive_is_ignored_by_engine_and_accepted_by_analyzer
    (v : Validator) (fmt : ErrorFormatFunc) (rv : rvalue) (ft : StructField)
    (tv : TagValidator.t) (pos : TagValidator.Position)
    (fieldName fullTag seg : string) (fuel : nat) :
  validators v !! diveTag = None ->
  Str.TrimSpace (fst (Str.SplitN2 (Str.TrimSpace seg))) = diveTag ->
  proceedTag v fmt rv ft seg = ([], Ret None) /\
  TagValidator.validateTagPart (S fuel) tv pos fieldName fullTag
    (Str.TrimSpace seg) = Some tv.
Proof.
  intros Hreg Hkey. split.
  - unfold proceedTag, segmentValue.
    destruct (String.eqb (Str.TrimSpace seg) ""); [done |].
    destruct (Str.SplitN2 (Str.TrimSpace seg)) as [k rest].
    cbn [fst] in Hkey. rewrite Hkey.
    change (String.eqb diveTag eachTag) with false. cbv iota.
    unfold dispatch, TagValidationFunc in *. by rewrite Hreg.
  - cbn [TagValidator.validateTagPart].
    destruct (Str.SplitN2 (Str.TrimSpace seg)) as [k rest].
    cbn [fst] in Hkey. rewrite Hkey.
    destruct rest; reflexivity.
Qed.

Lemma dive_is_ignored_by_engine_and_accepted_by_analyzer_witness :
  proceedTag NewValidator defaultErrorFormat (VString "x")
             (mkStructField "Inner" [("lakery", "required, dive")]) " dive"
  = ([], Ret None) /\
  TagValidator.validateTagPart 1 TagValidator.NewTagValidator
    (TagValidator.mkPosition "types.go" 3 2) "Inner" "required, dive"
    (Str.TrimSpace " dive") = Some TagValidator.NewTagValidator.
Proof.
  apply (dive_is_ignored_by_engine_and_accepted_by_analyzer
           NewValidator defaultErrorFormat (VString "x")
           (mkStructField "Inner" [("lakery", "required, dive")])
           TagValidator.NewTagValidator
           (TagValidator.mkPosition "types.go" 3 2)
           "Inner" "required, dive" " dive" 0);
    reflexivity.
Defined.

(** C9, as the claim states it, fails: the analyzer reports no diagnostic
    at all for the tag "dive", so no "unknown validator" one. *)
Lemma analyzer_reports_nothing_for_dive :
  TagValidator.validateLakeryTag TagValidator.NewTagValidator
    (TagValidator.mkPosition "types.go" 3 2) "Inner" "dive"
  = Some TagValidator.NewTagValidator /\
  TagValidator.errors TagValidator.NewTagValidator = [] /\
  TagValidator.validatorExists TagValidator.NewTagValidator "dive" = true.
Proof. repeat split; reflexivity. Qed.




(** * The static analyzer returns *)

Section AnalyzerTotal.
Import Str StrFacts.

Lemma length_rev_app (a b : string) :
  String.length (String.rev_app a b)
  = (String.length a + String.length b)%nat.
Proof.
  revert b; induction a as [|c a IH]; intros b; cbn; [done |].
  rewrite IH. cbn. lia.
Qed.

Lemma length_rev (s : string) : String.length (String.rev s) = String.length s.
Proof. unfold String.rev. rewrite length_rev_app. cbn. lia. Qed.

Lemma length_trimLeft_fuel (n : nat) (s : string) :
  (String.length s <= n)%nat ->
  (String.length (trimLeft s) <= String.length s)%nat.
Proof.
  revert s; induction n as [|n IH]; intros s Hn.
  - destruct s; cbn in *; lia.
  - destruct s as [|c1 [|c2 [|c3 s3]]]; cbn in *; try lia.
    + destruct (asciiSpace c1); cbn; lia.
    + destruct (asciiSpace c1).
      * specialize (IH (String c2 "") ltac:(cbn; lia)). cbn in IH. lia.
      * destruct (space2 c1 c2); cbn; lia.
    + destruct (asciiSpace c1).
      * specialize (IH (String c2 (String c3 s3)) ltac:(cbn; lia)).
        cbn in IH. lia.
      * destruct (space2 c1 c2).
        -- specialize (IH (String c3 s3) ltac:(cbn; lia)). cbn in IH. lia.
        -- destruct (space3 c1 c2 c3); [| cbn; lia].
           specialize (IH s3 ltac:(lia)). lia.
Qed.

Lemma length_trimLeftRev_fuel (n : nat) (s : string) :
  (String.length s <= n)%nat ->
  (String.length (trimLeftRev s) <= String.length s)%nat.
Proof.
  revert s; induction n as [|n IH]; intros s Hn.
  - destruct s; cbn in *; lia.
  - destruct s as [|c1 [|c2 [|c3 s3]]]; cbn in *; try lia.
    + destruct (asciiSpace c1); cbn; lia.
    + destruct (asciiSpace c1).
      * specialize (IH (String c2 "") ltac:(cbn; lia)). cbn in IH. lia.
      * destruct (space2 c2 c1); cbn; lia.
    + destruct (asciiSpace c1).
      * specialize (IH (String c2 (String c3 s3)) ltac:(cbn; lia)).
        cbn in IH. lia.
      * destruct (space2 c2 c1).
        -- specialize (IH (String c3 s3) ltac:(cbn; lia)). cbn in IH. lia.
        -- destruct (space3 c3 c2 c1); [| cbn; lia].
           specialize (IH s3 ltac:(lia)). lia.
Qed.

Lemma length_TrimSpace (s : string) :
  (String.length (TrimSpace s) <= String.length s)%nat.
Proof.
  unfold TrimSpace, trimRight. rewrite length_rev.
  pose proof (length_trimLeftRev_fuel _ (String.rev (trimLeft s)) (le_n _)).
  pose proof (length_trimLeft_fuel _ s (le_n _)).
  rewrite length_rev in *. lia.
Qed.

Lemma length_SplitN2 (s k r : string) :
  SplitN2 s = (k, Some r) -> (String.length r < String.length s)%nat.
Proof.
  revert k; induction s as [|c s IH]; intros k; cbn; [done |].
  destruct (Ascii.eqb c "=").
  - intros [= _ <-]. lia.
  - destruct (SplitN2 s) as [k' v']. intros [= _ ->].
    specialize (IH k' eq_refl). lia.
Qed.

Lemma length_substring (n m : nat) (s : string) :
  (String.length (substring n m s) <= String.length s)%nat.
Proof.
  revert n m; induction s as [|c s IH]; intros [|n] [|m]; cbn; try lia.
  - specialize (IH 0%nat m). lia.
  - specialize (IH n 0%nat). lia.
  - specialize (IH n (S m)). lia.
Qed.

Lemma concat_cons_cons (sep q q' : string) (ps : list string) :
  String.concat sep (q :: q' :: ps)
  = q +:+ (sep +:+ String.concat sep (q' :: ps)).
Proof. reflexivity. Qed.

Lemma length_Join_elem (sep p : string) (ps : list string) :
  In p ps -> (String.length p <= String.length (Join ps sep))%nat.
Proof.
  unfold Join. induction ps as [|q ps IH]; [done |].
  intros [-> | Hin].
  - destruct ps as [|q' ps]; [cbn; lia |].
    rewrite concat_cons_cons, length_app. lia.
  - specialize (IH Hin). destruct ps as [|q' ps]; [done |].
    rewrite concat_cons_cons, !length_app. lia.
Qed.

(** The analyzer's copy of the splitter, unfolded to the engine's. *)
Lemma analyzer_split_is_engine_split (s : string) :
  TagValidator.splitTopLevelByComma s = splitTopLevelByComma s.
Proof.
  unfold TagValidator.splitTopLevelByComma, splitTopLevelByComma.
  change (TagValidator.Scan [] 0 0) with (to_scan (SplitState [] 0 0)).
  by rewrite loop_agree.
Qed.

Lemma length_split_segment (s p : string) (segs : list string) :
  splitTopLevelByComma s = inl segs -> In p segs ->
  (String.length p <= String.length s)%nat.
Proof.
  intros Hok Hin. apply split_ok_Join in Hok.
  rewrite <- Hok. by apply length_Join_elem.
Qed.

Lemma forParts_total (body : TagValidator.t -> string -> option TagValidator.t)
    (segs : list string) :
  (forall tv p, In p segs -> exists tv', body tv p = Some tv') ->
  forall tv, exists tv', TagValidator.forParts body tv segs = Some tv'.
Proof.
  induction segs as [|p segs IH]; intros Hbody tv; cbn; [eauto |].
  destruct (Hbody tv p) as [tv1 ->]; [by left |].
  apply IH. intros tv2 q Hq. apply Hbody. by right.
Qed.

Lemma validateTagPart_total (fuel : nat) :
  forall tv pos fieldName fullTag part,
    (String.length part < fuel)%nat ->
    exists tv',
      TagValidator.validateTagPart fuel tv pos fieldName fullTag part
      = Some tv'.
Proof.
  induction fuel as [|fuel IH]; intros tv pos fieldName fullTag part Hlen;
    [lia |].
  cbn [TagValidator.validateTagPart].
  destruct (SplitN2 part) as [k rest] eqn:Hsplit.
  destruct (String.eqb (TrimSpace k) ""); [eauto |].
  destruct (String.eqb (TrimSpace k) "each").
  - destruct rest as [r|]; [| eauto].
    apply length_SplitN2 in Hsplit.
    pose proof (length_TrimSpace r) as Hr.
    set (value := if HasPrefix (TrimSpace r) "{" && HasSuffix (TrimSpace r) "}"
                  then TrimSpace (slice (TrimSpace r) 1
                                    (String.length (TrimSpace r) - 1))
                  else TrimSpace r).
    assert (Hvalue : (String.length value <= String.length (TrimSpace r))%nat).
    { subst value.
      destruct (HasPrefix (TrimSpace r) "{" && HasSuffix (TrimSpace r) "}");
        [| lia].
      pose proof (length_TrimSpace
                    (slice (TrimSpace r) 1 (String.length (TrimSpace r) - 1))).
      pose proof (length_substring 1 (String.length (TrimSpace r) - 1 - 1)
                    (TrimSpace r)).
      unfold slice in *. lia. }
    destruct (String.eqb value ""); [eauto |].
    rewrite analyzer_split_is_engine_split.
    destruct (splitTopLevelByComma value) as [innerParts | err] eqn:Hinner;
      [| eauto].
    apply forParts_total. intros tv1 p Hp.
    destruct (String.eqb (TrimSpace p) ""); [eauto |].
    apply IH.
    pose proof (length_split_segment value p innerParts Hinner Hp).
    pose proof (length_TrimSpace p). lia.
  - destruct (negb (TagValidator.validatorExists tv (TrimSpace k))).
    + destruct (HasPrefix (TrimSpace k) "each:"); eauto.
    + destruct rest; eauto.
Qed.

(** The analysis of one annotation always yields an analyzer state: the
    fuel handed to [validateTagPart] is never used up. *)
Lemma validateLakeryTag_total (tv : TagValidator.t)
    (pos : TagValidator.Position) (fieldName tag : string) :
  exists tv', TagValidator.validateLakeryTag tv pos fieldName tag = Some tv'.
Proof.
  unfold TagValidator.validateLakeryTag.
  rewrite analyzer_split_is_engine_split.
  destruct (splitTopLevelByComma tag) as [segs | err] eqn:Hsplit; [| eauto].
  apply forParts_total. intros tv1 p Hp.
  destruct (String.eqb (TrimSpace p) ""); [eauto |].
  apply validateTagPart_total.
  pose proof (length_split_segment tag p segs Hsplit Hp).
  pose proof (length_TrimSpace p). lia.
Qed.

End AnalyzerTotal.

(** * Monotonicity of min and max away from the unsigned wrap-around *)

Section Monotone.

Ltac case_ltb :=
  match goal with |- context [Z.ltb ?a ?b] => destruct (Z.ltb_spec a b) end.

Ltac destruct_goal_if :=
  match goal with |- context [if ?c then _ else _] => destruct c end.

Lemma Atoi_range (p : string) (n : Z) :
  Str.Atoi p = Some n -> p <> "" /\ - 2 ^ 63 <= n < 2 ^ 63.
Proof.
  unfold Str.Atoi. destruct p as [|c p]; [done |].
  intros H. split; [done |].
  destruct (if Ascii.eqb c "-" || Ascii.eqb c "+" then p else String c p);
    [done |].
  destruct (Str.digits _ 0) as [m|]; [| done].
  destruct ((_ <? _) || (_ <=? _)) eqn:Hr; [done |].
  injection H as <-.
  apply orb_false_elim in Hr as [H1 H2].
  apply Z.ltb_ge in H1. apply Z.leb_gt in H2. lia.
Qed.

Lemma round53_small (a : Z) : a < 2 ^ 53 -> round53 a = a.
Proof.
  intros H. unfold round53.
  destruct (Z.ltb_spec a (2 ^ 53)); [done | lia].
Qed.

Lemma round53_large (a : Z) :
  2 ^ 53 <= a ->
  exists q q' r,
    a = q * 2 ^ (Z.log2 a - 52) + r /\
    0 <= r < 2 ^ (Z.log2 a - 52) /\
    2 ^ 52 <= q < 2 ^ 53 /\
    q' = (if (2 ^ (Z.log2 a - 52 - 1) <? r)
             || ((r =? 2 ^ (Z.log2 a - 52 - 1)) && Z.odd q)
          then q + 1 else q) /\
    round53 a = q' * 2 ^ (Z.log2 a - 52).
Proof.
  intros Ha.
  assert (Hlog : 53 <= Z.log2 a).
  { apply Z.log2_le_pow2; lia. }
  assert (Hpos : 0 < 2 ^ (Z.log2 a - 52)) by (apply Z.pow_pos_nonneg; lia).
  destruct (Z.log2_spec a ltac:(lia)) as [Hlo Hhi].
  assert (Hsplit : 2 ^ Z.log2 a = 2 ^ 52 * 2 ^ (Z.log2 a - 52)).
  { rewrite <- Z.pow_add_r by lia. f_equal. lia. }
  assert (Hsplit' : 2 ^ Z.succ (Z.log2 a) = 2 ^ 53 * 2 ^ (Z.log2 a - 52)).
  { rewrite <- Z.pow_add_r by lia. f_equal. lia. }
  exists (a / 2 ^ (Z.log2 a - 52)), 
    (if (2 ^ (Z.log2 a - 52 - 1) <? a mod 2 ^ (Z.log2 a - 52))
        || ((a mod 2 ^ (Z.log2 a - 52) =? 2 ^ (Z.log2 a - 52 - 1))
            && Z.odd (a / 2 ^ (Z.log2 a - 52)))
     then a / 2 ^ (Z.log2 a - 52) + 1 else a / 2 ^ (Z.log2 a - 52)),
    (a mod 2 ^ (Z.log2 a - 52)).
  split; [| split; [| split; [| split]]].
  - rewrite Z.mul_comm. apply Z.div_mod. lia.
  - apply Z.mod_pos_bound. lia.
  - split.
    + apply Z.div_le_lower_bound; lia.
    + apply Z.div_lt_upper_bound; lia.
  - reflexivity.
  - unfold round53. destruct (Z.ltb_spec a (2 ^ 53)); [lia | reflexivity].
Qed.

Lemma round53_between (a : Z) :
  2 ^ 53 <= a -> 2 ^ Z.log2 a <= round53 a <= 2 ^ (Z.log2 a + 1).
Proof.
  intros Ha.
  assert (Hlog : 53 <= Z.log2 a) by (apply Z.log2_le_pow2; lia).
  destruct (round53_large a Ha) as (q & q' & r & _ & _ & Hq & Hq' & ->).
  assert (Hpos : 0 < 2 ^ (Z.log2 a - 52)) by (apply Z.pow_pos_nonneg; lia).
  assert (H1 : 2 ^ Z.log2 a = 2 ^ 52 * 2 ^ (Z.log2 a - 52)).
  { rewrite <- Z.pow_add_r by lia. f_equal. lia. }
  assert (H2 : 2 ^ (Z.log2 a + 1) = 2 ^ 53 * 2 ^ (Z.log2 a - 52)).
  { rewrite <- Z.pow_add_r by lia. f_equal. lia. }
  rewrite H1, H2.
  assert (q <= q' <= q + 1) by (subst q'; destruct (_ || _); lia).
  nia.
Qed.

Lemma round53_monotone (a b : Z) :
  0 <= a <= b -> round53 a <= round53 b.
Proof.
  intros [Ha Hab].
  destruct (Z.lt_ge_cases b (2 ^ 53)) as [Hb | Hb].
  { rewrite !round53_small by lia. lia. }
  assert (Hlb : 53 <= Z.log2 b) by (apply Z.log2_le_pow2; lia).
  pose proof (round53_between b Hb) as [Hb1 Hb2].
  destruct (Z.lt_ge_cases a (2 ^ 53)) as [Ha53 | Ha53].
  { rewrite (round53_small a) by lia.
    assert (2 ^ 53 <= 2 ^ Z.log2 b) by (apply Z.pow_le_mono_r; lia). lia. }
  pose proof (round53_between a Ha53) as [Ha1 Ha2].
  pose proof (Z.log2_le_mono a b Hab) as Hlogs.
  destruct (Z.lt_ge_cases (Z.log2 a) (Z.log2 b)) as [Hlt | Hge].
  { assert (2 ^ (Z.log2 a + 1) <= 2 ^ Z.log2 b)
      by (apply Z.pow_le_mono_r; lia). lia. }
  assert (Heq : Z.log2 a = Z.log2 b) by lia.
  destruct (round53_large a Ha53) as (qa & qa' & ra & Hda & Hra & Hqa & Hqa' & ->).
  destruct (round53_large b Hb) as (qb & qb' & rb & Hdb & Hrb & Hqb & Hqb' & ->).
  assert (Hqa1 : qa <= qa' <= qa + 1) by (rewrite Hqa'; destruct_goal_if; lia).
  assert (Hqb1 : qb <= qb' <= qb + 1) by (rewrite Hqb'; destruct_goal_if; lia).
  rewrite Heq in *.
  assert (HP : 0 < 2 ^ (Z.log2 b - 52)) by (apply Z.pow_pos_nonneg; lia).
  generalize dependent (2 ^ (Z.log2 b - 52 - 1)). intros half.
  generalize dependent (2 ^ (Z.log2 b - 52)). intros P. intros.
  assert (Hq : qa <= qb) by nia.
  enough (qa' <= qb') by nia.
  destruct (Z.eq_dec qa qb) as [Hsame | Hdiff]; [| lia].
  subst qb. assert (Hr : ra <= rb) by nia.
  subst qa' qb'.
  destruct (Z.ltb_spec half ra), (Z.ltb_spec half rb),
           (Z.eqb_spec ra half), (Z.eqb_spec rb half),
           (Z.odd qa); cbn; lia.
Qed.

Lemma round53_nonneg (a : Z) : 0 <= a -> 0 <= round53 a.
Proof.
  intros Ha. pose proof (round53_monotone 0 a ltac:(lia)) as H.
  by rewrite (round53_small 0) in H.
Qed.

Lemma rounded_monotone (m n : Z) : m <= n -> rounded m <= rounded n.
Proof.
  intros Hmn. unfold rounded, signed.
  pose proof (round53_nonneg (Z.abs m) ltac:(lia)).
  pose proof (round53_nonneg (Z.abs n) ltac:(lia)).
  rewrite !Z2N.id by done.
  destruct (Z.ltb_spec m 0), (Z.ltb_spec n 0); try lia.
  - pose proof (round53_monotone (Z.abs n) (Z.abs m) ltac:(lia)). lia.
  - pose proof (round53_monotone (Z.abs m) (Z.abs n) ltac:(lia)). lia.
Qed.

Lemma float_ltb_param_l (f : float64) (m n : Z) :
  m <= n ->
  float_ltb f (float64_of_int n) = false ->
  float_ltb f (float64_of_int m) = false.
Proof.
  intros Hmn. pose proof (rounded_monotone m n Hmn) as Hr.
  unfold float64_of_int, rounded in *.
  destruct f as [|neg|neg mf e]; cbn; try done.
  rewrite !Z.ltb_ge.
  assert (0 < 2 ^ (0 - Z.min e 0)) by (apply Z.pow_pos_nonneg; lia).
  nia.
Qed.

Lemma float_ltb_param_r (f : float64) (m n : Z) :
  n <= m ->
  float_ltb (float64_of_int n) f = false ->
  float_ltb (float64_of_int m) f = false.
Proof.
  intros Hnm. pose proof (rounded_monotone n m Hnm) as Hr.
  unfold float64_of_int, rounded in *.
  destruct f as [|neg|neg mf e]; cbn; try done.
  rewrite !Z.ltb_ge.
  assert (0 < 2 ^ (0 - Z.min 0 e)) by (apply Z.pow_pos_nonneg; lia).
  nia.
Qed.

Lemma minCheck_monotone (rv : rvalue) (m n : Z) :
  m <= n -> n < 2 ^ 63 ->
  (forall u, rv = VUint u -> 0 <= m) ->
  minCheck n rv = None -> minCheck m rv = None.
Proof.
  intros Hmn Hn Hu.
  destruct rv; unfold minCheck; cbn [Len kind]; try done;
    try (repeat case_ltb; (done || (exfalso; lia))).
  - specialize (Hu _ eq_refl). unfold uint64_of_int.
    rewrite !Z.mod_small by lia.
    repeat case_ltb; (done || (exfalso; lia)).
  - destruct (float_ltb f (float64_of_int n)) eqn:Hf; [done |]. intros _.
    by rewrite (float_ltb_param_l f m n Hmn Hf).
Qed.

Lemma maxCheck_monotone (rv : rvalue) (m n : Z) :
  n <= m -> m < 2 ^ 63 ->
  (forall u, rv = VUint u -> 0 <= n) ->
  maxCheck n rv = None -> maxCheck m rv = None.
Proof.
  intros Hnm Hm Hu.
  destruct rv; unfold maxCheck; cbn [Len kind]; try done;
    try (repeat case_ltb; (done || (exfalso; lia))).
  - specialize (Hu _ eq_refl). unfold uint64_of_int.
    rewrite !Z.mod_small by lia.
    repeat case_ltb; (done || (exfalso; lia)).
  - destruct (float_ltb (float64_of_int n) f) eqn:Hf; [done |]. intros _.
    by rewrite (float_ltb_param_r f m n Hnm Hf).
Qed.

(** For a fixed field value that is not an unsigned integer checked
    against a negative parameter: a passing min=N stays passing for every
    smaller parameter. *)
Lemma builtinMin_monotone (rv : rvalue) (fieldName pN pM : string) (N M : Z) :
  Str.Atoi pN = Some N -> Str.Atoi pM = Some M -> M <= N ->
  (on_unsigned rv = true -> 0 <= M) ->
  builtinMin (mkValue rv fieldName pN) = Ret None ->
  builtinMin (mkValue rv fieldName pM) = Ret None.
Proof.
  intros HN HM Hle Hu.
  destruct (Atoi_range pN N HN) as [HpN [_ HNhi]].
  destruct (Atoi_range pM M HM) as [HpM _].
  unfold builtinMin, Param; cbn [param name val bind].
  destruct (String.eqb_spec pN ""); [done |].
  destruct (String.eqb_spec pM ""); [done |].
  cbn [bind]. rewrite HN, HM.
  assert (Hc : forall x, (forall u, x = VUint u -> 0 <= M) ->
             Ret (minCheck N x) = Ret None -> Ret (minCheck M x) = Ret None).
  { intros x Hx [= Hpass]. f_equal.
    by apply (minCheck_monotone x M N). }
  destruct rv as [| | | | | | | | | | | [target|] |  |];
    try (apply Hc; intros u [=]; fail).
  - apply Hc. intros u [= ->]. by apply Hu.
  - apply Hc. intros u ->. by apply Hu.
  - destruct (Z.ltb_spec 0 N); [done |].
    destruct (Z.ltb_spec 0 M); [lia | done].
Qed.

(** And a passing max=N stays passing for every larger parameter. *)
Lemma builtinMax_monotone (rv : rvalue) (fieldName pN pM : string) (N M : Z) :
  Str.Atoi pN = Some N -> Str.Atoi pM = Some M -> N <= M ->
  (on_unsigned rv = true -> 0 <= N) ->
  builtinMax (mkValue rv fieldName pN) = Ret None ->
  builtinMax (mkValue rv fieldName pM) = Ret None.
Proof.
  intros HN HM Hle Hu.
  destruct (Atoi_range pN N HN) as [HpN _].
  destruct (Atoi_range pM M HM) as [HpM [_ HMhi]].
  unfold builtinMax, Param; cbn [param name val bind].
  destruct (String.eqb_spec pN ""); [done |].
  destruct (String.eqb_spec pM ""); [done |].
  cbn [bind]. rewrite HN, HM.
  assert (Hc : forall x, (forall u, x = VUint u -> 0 <= N) ->
             Ret (maxCheck N x) = Ret None -> Ret (maxCheck M x) = Ret None).
  { intros x Hx [= Hpass]. f_equal.
    by apply (maxCheck_monotone x M N). }
  destruct rv as [| | | | | | | | | | | [target|] |  |];
    try (apply Hc; intros u [=]; fail).
  - apply Hc. intros u [= ->]. by apply Hu.
  - apply Hc. intros u ->. by apply Hu.
  - done.
Qed.

End Monotone.

(** * The test suite of the package, run on the model *)

Section Suite.

Let record (tag : string) (fv : rvalue) : rvalue :=
  VStruct [(mkStructField "F" [("lakery", tag)], fv)].

Let check (tag : string) (fv : rvalue) : result (option error) :=
  snd (Validate (Some NewValidator) defaultErrorFormat (record tag fv)).

Let creds : rvalue := VSlice [VString "a"; VString "bb"; VString "ccc"].

Example auto_registers_builtins :
  ListValidators NewValidator = {[ "min"; "max"; "required" ]}.
Proof. reflexivity. Qed.

Example passes_when_length_within_bounds :
  check "min=2,max=4" (VString "john") = Ret None.
Proof. reflexivity. Qed.

Example fails_when_length_below_min :
  check "min=2,max=4" (VString "J")
  = Ret (Some (FieldError "F" (MinLength 2) (VString "J"))).
Proof. reflexivity. Qed.

Example fails_when_length_above_max :
  check "min=2,max=4" (VString "johnny")
  = Ret (Some (FieldError "F" (MaxLength 4) (VString "johnny"))).
Proof. reflexivity. Qed.

Example required_fails_on_zero_values :
  check "required" (VString "")
  = Ret (Some (FieldError "F" IsRequired (VString ""))) /\
  check "required" (VPtr None)
  = Ret (Some (FieldError "F" IsRequired (VPtr None))).
Proof. split; reflexivity. Qed.

Example required_passes_on_non_zero :
  check "required" (VString "ok") = Ret None /\
  check "required" (VPtr (Some (VInt 10))) = Ret None.
Proof. split; reflexivity. Qed.

Example each_empty_parameters : check "each={}" creds = Ret None.
Proof. reflexivity. Qed.

Example each_unclosed_with_no_params :
  check "each={" creds
  = Ret (Some (FieldError "F" (GrammarError (UnclosedBraces "each={")) creds)).
Proof. reflexivity. Qed.

Example each_unopened_with_no_params :
  check "each=}" creds
  = Ret (Some (FieldError "F" (GrammarError (UnopenedBraces "each=}")) creds)).
Proof. reflexivity. Qed.

Example each_unclosed_with_params :
  check "each={min=100" creds
  = Ret (Some (FieldError "F"
                 (GrammarError (UnclosedBraces "each={min=100")) creds)).
Proof. reflexivity. Qed.

Example each_colon_syntax_is_ignored : check "each:{}" creds = Ret None.
Proof. reflexivity. Qed.

Example each_passes_when_all_elements_are_valid :
  check "each={min=1,max=5}" creds = Ret None.
Proof. reflexivity. Qed.

Example each_fails_when_any_element_invalid :
  check "each={min=1,max=5}" (VSlice [VString ""; VString "bb"])
  = Ret (Some (FieldError "F" (MinLength 1) (VString ""))).
Proof. reflexivity. Qed.

Example each_errors_when_used_on_non_slice :
  check "each={min=1}" (VString "aa")
  = Ret (Some (FieldError "F" EachNotSlice (VString "aa"))).
Proof. reflexivity. Qed.

Example custom_formatter_wraps_underlying_error :
  snd (Validate (Some NewValidator)
         (fun _ _ err => Some (FieldError "wrapped" err VInvalid))
         (record "min=3" (VString "aa")))
  = Ret (Some (FieldError "wrapped" (MinLength 3) VInvalid)).
Proof. reflexivity. Qed.

End Suite.

(** * More on the grammar parser *)

Section Segmentation.
Import Str StrFacts.

Lemma depth_from_app (d : Z) (a b : string) :
  depth_from d (a +:+ b) = depth_from (depth_from d a) b.
Proof.
  revert d; induction a as [|c a IH]; intros d; [done |].
  rewrite app_cons. cbn. apply IH.
Qed.

Lemma final_depth_app (a b : string) :
  final_depth (a +:+ b) = final_depth a + final_depth b.
Proof.
  unfold final_depth. rewrite depth_from_app.
  rewrite (depth_from_shift (depth_from 0 a) b). reflexivity.
Qed.

Lemma final_depth_snoc (a : string) (c : ascii) :
  final_depth (a +:+ String c "") = final_depth a + brace_delta c.
Proof. rewrite final_depth_app. unfold final_depth. cbn. lia. Qed.

Lemma segments_from_step (d : Z) (cur : string) (c : ascii) (s : string) :
  segments_from d cur (String c s) =
    if Ascii.eqb c "," && (d =? 0) then cur :: segments_from d "" s
    else segments_from (d + brace_delta c) (cur +:+ String c "") s.
Proof. reflexivity. Qed.

(** One step of the engine's loop against one step of [segments_from]. *)
Lemma split_step_segments (pre rest : string) (r : ascii) (st : split_state) :
  (last st <= String.length pre)%nat ->
  let s := pre +:+ String r rest in
  let st' := split_step s st (String.length pre) r in
  (last st' <= S (String.length pre))%nat /\
  parts st' ++ segments_from (depth st')
                 (slice s (last st') (S (String.length pre))) rest
  = parts st ++ segments_from (depth st)
                  (slice s (last st) (String.length pre)) (String r rest).
Proof.
  intros Hlast s st'. subst s st'.
  rewrite segments_from_step. unfold split_step.
  destruct (Ascii.eqb_spec r "{") as [-> | Hopen].
  { cbn [parts depth last andb Ascii.eqb]. split; [lia |].
    rewrite slice_snoc by done. reflexivity. }
  destruct (Ascii.eqb_spec r "}") as [-> | Hclose].
  { cbn [parts depth last]. split; [lia |].
    rewrite slice_snoc by done. reflexivity. }
  assert (Hdelta : brace_delta r = 0).
  { unfold brace_delta.
    destruct (Ascii.eqb_spec r "{"); [done |].
    by destruct (Ascii.eqb_spec r "}"). }
  destruct (Ascii.eqb_spec r ",") as [-> | Hcomma].
  - destruct (depth st =? 0) eqn:Hd; cbn [andb parts depth last].
    + split; [lia |].
      replace (String.length pre + 1)%nat with (S (String.length pre)) by lia.
      rewrite slice_empty, <- List.app_assoc. reflexivity.
    + split; [lia |]. rewrite slice_snoc by done.
      rewrite Hdelta, Z.add_0_r. reflexivity.
  - cbn [andb]. split; [lia |]. rewrite slice_snoc by done.
    rewrite Hdelta, Z.add_0_r. reflexivity.
Qed.

Lemma split_loop_segments (rest pre : string) (st : split_state) :
  (last st <= String.length pre)%nat ->
  let s := pre +:+ rest in
  let st' := split_loop s rest (String.length pre) st in
  parts st' ++ [slice s (last st') (String.length s)]
  = parts st ++ segments_from (depth st)
                  (slice s (last st) (String.length pre)) rest.
Proof.
  revert pre st; induction rest as [|r rest IH]; intros pre st Hlast.
  - cbn zeta. cbn [split_loop segments_from]. by rewrite app_nil_r.
  - cbn zeta. cbn [split_loop].
    destruct (split_step_segments pre rest r st Hlast)
      as [Hlast' Hstep].
    cbn zeta in Hstep. rewrite <- Hstep.
    assert (Hs : pre +:+ String r rest = (pre +:+ String r "") +:+ rest)
      by (by rewrite app_assoc).
    assert (Hlen : S (String.length pre)
                   = String.length (pre +:+ String r ""))
      by (rewrite length_app; cbn; lia).
    pose proof (IH (pre +:+ String r "")
                   (split_step (pre +:+ String r rest) st
                               (String.length pre) r)) as Hnext.
    cbn zeta in Hnext. rewrite <- Hs, <- Hlen in Hnext.
    apply Hnext. exact Hlast'.
Qed.

Lemma split_loop_is_segments (s : string) :
  let st := split_loop s s 0 (SplitState [] 0 0) in
  parts st ++ [slice s (last st) (String.length s)] = segments s.
Proof.
  pose proof (split_loop_segments s "" (SplitState [] 0 0)) as H.
  cbn zeta in H. cbn [String.length parts depth last] in H.
  rewrite app_nil_l in H. rewrite slice_empty in H.
  apply H. lia.
Qed.

End Segmentation.

(** The splitter, unfolded to the segments of the grammar. *)
Lemma split_unfold_segments (s : string) :
  splitTopLevelByComma s =
    if final_depth s <? 0 then inr (UnopenedBraces s)
    else if 0 <? final_depth s then inr (UnclosedBraces s)
    else inl (segments s).
Proof.
  rewrite split_by_final_depth.
  by rewrite (split_loop_is_segments s).
Qed.

Lemma split_ok_segments (s : string) (segs : list string) :
  splitTopLevelByComma s = inl segs ->
  final_depth s = 0 /\ segs = segments s.
Proof.
  rewrite split_unfold_segments.
  destruct (Z.ltb_spec (final_depth s) 0); [done |].
  destruct (Z.ltb_spec 0 (final_depth s)); [done |].
  intros [= <-]. split; [lia | done].
Qed.

Lemma split_of_balanced (s : string) :
  final_depth s = 0 -> splitTopLevelByComma s = inl (segments s).
Proof.
  intros H. rewrite split_unfold_segments, H. reflexivity.
Qed.

(** X1: the index arithmetic of the splitter cuts the annotation exactly at
    the commas met at depth 0: on success the result is the list of maximal
    pieces between such commas. *)
Theorem split_is_segments (s : string) :
  splitTopLevelByComma s =
    if final_depth s <? 0 then inr (UnopenedBraces s)
    else if 0 <? final_depth s then inr (UnclosedBraces s)
    else inl (segments s).
Proof. exact (split_unfold_segments s). Qed.

Section SegmentFacts.
Import Str StrFacts.

Lemma depth_from_comma (d : Z) (s : string) :
  depth_from (d + brace_delta ",") s = depth_from d s.
Proof. cbn. by rewrite Z.add_0_r. Qed.

Lemma segments_from_balanced (s : string) :
  forall d cur,
    d = final_depth cur -> depth_from d s = 0 ->
    Forall (fun seg => final_depth seg = 0) (segments_from d cur s).
Proof.
  induction s as [|c s IH]; intros d cur Hd Hend.
  - cbn in *. constructor; [lia | constructor].
  - rewrite segments_from_step. cbn [depth_from] in Hend.
    destruct (Ascii.eqb_spec c ",") as [-> | Hc];
      [destruct (Z.eqb_spec d 0) as [Hz | Hz] |]; cbn [andb].
    + constructor; [lia |]. apply IH; [done |].
      rewrite depth_from_comma in Hend. exact Hend.
    + apply IH; [| done]. rewrite final_depth_snoc. lia.
    + apply IH; [| done]. rewrite final_depth_snoc. lia.
Qed.

Lemma open_segment_empty : open_segment 0 "".
Proof. intros x. reflexivity. Qed.

Lemma open_segment_snoc (d : Z) (cur : string) (c : ascii) :
  Ascii.eqb c "," && (d =? 0) = false ->
  open_segment d cur ->
  open_segment (d + brace_delta c) (cur +:+ String c "").
Proof.
  intros Hc Hopen x.
  rewrite app_assoc. change (String c "" +:+ x) with (String c x).
  rewrite Hopen, segments_from_step, Hc. reflexivity.
Qed.

Lemma segments_from_single (s : string) :
  forall d cur seg,
    open_segment d cur -> In seg (segments_from d cur s) ->
    segments seg = [seg].
Proof.
  induction s as [|c s IH]; intros d cur seg Hopen Hin.
  - cbn in Hin. destruct Hin as [<- | []].
    unfold segments. rewrite <- (app_nil_r cur) at 1.
    rewrite Hopen. reflexivity.
  - rewrite segments_from_step in Hin.
    destruct (Ascii.eqb c "," && (d =? 0)) eqn:Hc.
    + destruct Hin as [<- | Hin].
      * unfold segments. rewrite <- (app_nil_r cur) at 1.
        rewrite Hopen. reflexivity.
      * apply (IH d "" seg); [| exact Hin].
        apply andb_true_iff in Hc as [_ Hd]. apply Z.eqb_eq in Hd.
        subst d. exact open_segment_empty.
    + apply (IH _ _ seg (open_segment_snoc d cur c Hc Hopen) Hin).
Qed.

Lemma brace_free_cons (c : ascii) (s : string) :
  brace_free (String c s) = true ->
  brace_delta c = 0 /\ brace_free s = true.
Proof.
  unfold brace_free, brace_delta. cbn [occurs].
  destruct (Ascii.eqb c "{"), (Ascii.eqb c "}"); cbn;
    rewrite ?andb_false_r; try done.
Qed.

Lemma brace_free_depth (s : string) (d : Z) :
  brace_free s = true -> depth_from d s = d.
Proof.
  revert d; induction s as [|c s IH]; intros d Hs; [done |].
  apply brace_free_cons in Hs as [Hc Hs]. cbn.
  rewrite Hc, Z.add_0_r. by apply IH.
Qed.

Lemma occurs_app (c : ascii) (a b : string) :
  occurs c (a +:+ b) = occurs c a || occurs c b.
Proof.
  induction a as [|x a IH]; [done |].
  rewrite app_cons. cbn. by rewrite IH, orb_assoc.
Qed.

Lemma segments_from_brace_free (s : string) :
  forall cur,
    brace_free s = true -> occurs "," cur = false ->
    List.length (segments_from 0 cur s) = S (count_byte "," s) /\
    Forall (fun seg => occurs "," seg = false) (segments_from 0 cur s).
Proof.
  induction s as [|c s IH]; intros cur Hs Hcur.
  - cbn. split; [done |]. by repeat constructor.
  - apply brace_free_cons in Hs as [Hc Hs].
    rewrite segments_from_step. cbn [count_byte].
    destruct (Ascii.eqb_spec c ",") as [-> | Hne]; cbn [andb Z.eqb].
    + destruct (IH "" Hs eq_refl) as [Hlen Hall].
      split; [cbn; by rewrite Hlen | by constructor].
    + rewrite Hc. apply IH; [done |].
      rewrite occurs_app, Hcur. cbn.
      destruct (Ascii.eqb_spec c ","); [done | reflexivity].
Qed.

Lemma segments_from_comma_app (a b : string) :
  forall d cur,
    depth_from d a = 0 ->
    segments_from d cur (a +:+ "," +:+ b)
    = segments_from d cur a ++ segments_from 0 "" b.
Proof.
  induction a as [|c a IH]; intros d cur Hend.
  - cbn in Hend. subst d. reflexivity.
  - rewrite app_cons, !segments_from_step. cbn [depth_from] in Hend.
    destruct (Ascii.eqb_spec c ",") as [-> | Hne];
      [destruct (Z.eqb_spec d 0) as [Hz | Hz] |]; cbn [andb].
    + rewrite depth_from_comma in Hend.
      by rewrite (IH d "" Hend).
    + by apply IH.
    + by apply IH.
Qed.

Lemma segments_from_comma_free (key t : string) :
  forall d cur,
    occurs "," key = false ->
    segments_from d cur (key +:+ t)
    = segments_from (depth_from d key) (cur +:+ key) t.
Proof.
  induction key as [|c key IH]; intros d cur Hkey.
  - by rewrite app_nil_r.
  - cbn in Hkey. apply orb_false_elim in Hkey as [Hc Hkey].
    rewrite app_cons, segments_from_step, Hc. cbn [andb depth_from].
    rewrite (IH _ _ Hkey), app_assoc. reflexivity.
Qed.

Lemma segments_from_inside (s t : string) :
  forall d cur,
    1 <= d -> goes_negative_from (d - 1) s = false ->
    segments_from d cur (s +:+ t)
    = segments_from (depth_from d s) (cur +:+ s) t.
Proof.
  induction s as [|c s IH]; intros d cur Hd Hs.
  - by rewrite app_nil_r.
  - cbn [goes_negative_from] in Hs. apply orb_false_elim in Hs as [Hc Hs].
    apply Z.ltb_ge in Hc.
    rewrite app_cons, segments_from_step.
    destruct (Z.eqb_spec d 0) as [Hz | _]; [lia |].
    rewrite andb_false_r. cbn [depth_from].
    replace (d - 1 + brace_delta c) with (d + brace_delta c - 1) in Hs by lia.
    rewrite (IH (d + brace_delta c) (cur +:+ String c "") ltac:(lia) Hs).
    by rewrite app_assoc.
Qed.

End SegmentFacts.

(** X2: every segment the splitter returns is balanced at its end and is a
    single segment of its own: splitting it again returns it alone. *)
Theorem split_segments_are_single (s : string) (segs : list string) :
  splitTopLevelByComma s = inl segs ->
  Forall (fun seg => final_depth seg = 0 /\
                     splitTopLevelByComma seg = inl [seg]) segs.
Proof.
  intros Hok. apply split_ok_segments in Hok as [Hdepth ->].
  pose proof (segments_from_balanced s 0 "" eq_refl Hdepth) as Hbal.
  apply List.Forall_forall. intros seg Hin.
  rewrite List.Forall_forall in Hbal. specialize (Hbal seg Hin).
  split; [exact Hbal |].
  rewrite (split_of_balanced seg Hbal).
  by rewrite (segments_from_single s 0 "" seg open_segment_empty Hin).
Qed.

Lemma split_segments_are_single_witness :
  Forall (fun seg => final_depth seg = 0 /\
                     splitTopLevelByComma seg = inl [seg])
         ["required"; "each={min=1,max=5}"; "},{"].
Proof.
  apply (split_segments_are_single "required,each={min=1,max=5},},{").
  reflexivity.
Defined.

(** X3: on an annotation without braces the splitter is a plain split at
    the commas: it succeeds, returns one segment more than there are commas,
    and no segment holds a comma. *)
Theorem split_brace_free (s : string) :
  brace_free s = true ->
  exists segs,
    splitTopLevelByComma s = inl segs /\
    List.length segs = S (count_byte "," s) /\
    Forall (fun seg => occurs "," seg = false) segs.
Proof.
  intros Hs. exists (segments s).
  split; [| by apply segments_from_brace_free].
  apply split_of_balanced. unfold final_depth. by apply brace_free_depth.
Qed.

Lemma split_brace_free_witness :
  exists segs,
    splitTopLevelByComma "required, min=2,,max=4," = inl segs /\
    List.length segs = S (count_byte "," "required, min=2,,max=4,") /\
    Forall (fun seg => occurs "," seg = false) segs.
Proof. apply split_brace_free. reflexivity. Defined.

(** X4: annotations compose: when both [a] and [b] split, [a,b] splits into
    the segments of [a] followed by the segments of [b]. *)
Theorem split_comma_app (a b : string) (sa sb : list string) :
  splitTopLevelByComma a = inl sa ->
  splitTopLevelByComma b = inl sb ->
  splitTopLevelByComma (a +:+ "," +:+ b) = inl (sa ++ sb).
Proof.
  intros Ha Hb.
  apply split_ok_segments in Ha as [Hda ->].
  apply split_ok_segments in Hb as [Hdb ->].
  rewrite split_of_balanced.
  - unfold segments. by rewrite segments_from_comma_app.
  - rewrite !final_depth_app, Hda, Hdb. reflexivity.
Qed.

Lemma split_comma_app_witness :
  splitTopLevelByComma ("min=1,each={a,b}" +:+ "," +:+ "required,max=3")
  = inl (["min=1"; "each={a,b}"] ++ ["required"; "max=3"]).
Proof. apply split_comma_app; reflexivity. Defined.

(** X5: braces protect commas: a brace block whose content never closes
    more braces than it has opened, and ends balanced, stays in one segment
    together with the name in front of it, whatever commas it holds. *)
Theorem split_keeps_brace_block (key body : string) :
  occurs "," key = false -> brace_free key = true ->
  goes_negative body = false -> final_depth body = 0 ->
  splitTopLevelByComma (key +:+ "{" +:+ body +:+ "}")
  = inl [key +:+ "{" +:+ body +:+ "}"].
Proof.
  intros Hcomma Hfree Hneg Hbal.
  assert (Hkey : depth_from 0 key = 0) by (by apply brace_free_depth).
  rewrite split_of_balanced.
  - unfold segments.
    rewrite (segments_from_comma_free key _ 0 "" Hcomma), Hkey.
    rewrite StrFacts.app_nil_l.
    change ("{" +:+ body +:+ "}") with (String "{" (body +:+ "}")).
    rewrite segments_from_step. cbn [Ascii.eqb Bool.eqb andb].
    change (0 + brace_delta "{") with 1.
    rewrite (segments_from_inside body "}" 1 _ ltac:(lia) Hneg).
    cbn [segments_from]. rewrite andb_false_l. cbn [segments_from].
    by rewrite !StrFacts.app_assoc.
  - rewrite !final_depth_app. unfold final_depth at 1. rewrite Hkey, Hbal.
    reflexivity.
Qed.

Lemma split_keeps_brace_block_witness :
  splitTopLevelByComma ("each=" +:+ "{" +:+ "min=1,each={a,b},max=5" +:+ "}")
  = inl ["each=" +:+ "{" +:+ "min=1,each={a,b},max=5" +:+ "}"].
Proof. apply split_keeps_brace_block; reflexivity. Defined.

(** * More on the runtime engine *)

Section Engine.
Import Str.

Lemma TrimSpace_empty : TrimSpace "" = "".
Proof. reflexivity. Qed.

Lemma segment_key_empty (seg : string) :
  TrimSpace seg = "" -> segment_key seg = "".
Proof. unfold segment_key. by intros ->. Qed.

(** A segment, unfolded: skipped when blank, and otherwise read into its
    name and the [Value] of the callback. *)
Lemma proceedTag_unfold (v : Validator) (fmt : ErrorFormatFunc)
    (rv : rvalue) (ft : StructField) (seg : string) :
  proceedTag v fmt rv ft seg =
    if String.eqb (TrimSpace seg) "" then ([], Ret None)
    else
      let arg := snd (segmentValue rv (Name ft) (TrimSpace seg)) in
      if String.eqb (segment_key seg) eachTag then
        match kind rv with
        | Slice | Array =>
          match Param arg with
          | Panic msg => ([], Panic msg)
          | Ret inner =>
            match splitTopLevelByComma (stripBraces (TrimSpace inner)) with
            | inr err => ([], Ret (fmt ft rv (GrammarError err)))
            | inl innerTags =>
              for_each (eachElement v fmt ft innerTags) (elements_of rv)
            end
          end
        | _ => ([], Ret (fmt ft rv EachNotSlice))
        end
      else dispatch v fmt ft rv (segment_key seg) arg.
Proof.
  unfold proceedTag, segment_key, segmentValue.
  destruct (String.eqb (TrimSpace seg) ""); [done |].
  by destruct (SplitN2 (TrimSpace seg)) as [k rest].
Qed.

Lemma for_each_all_skip {A : Type} (body : A -> run) (xs : list A) :
  (forall x, In x xs -> body x = ([], Ret None)) ->
  for_each body xs = ([], Ret None).
Proof.
  induction xs as [|x xs IH]; intros Hbody; [done |].
  cbn [for_each]. rewrite (Hbody x) by (by left).
  rewrite andThen_nil_l. apply IH. intros y Hy. apply Hbody. by right.
Qed.


Lemma for_each_error {A : Type} (R : error -> Prop) (body : A -> run)
    (xs : list A) :
  (forall x t e, In x xs -> body x = (t, Ret (Some e)) -> R e) ->
  forall t e, for_each body xs = (t, Ret (Some e)) -> R e.
Proof.
  induction xs as [|x xs IH]; intros Hbody t e; [done |].
  cbn [for_each]. pose proof (Hbody x) as Hx.
  destruct (body x) as [tx [[ex|]|msg]]; cbn.
  - intros [= _ <-]. by apply (Hx tx ex); [left |].
  - destruct (for_each body xs) as [t' r'] eqn:Hrest. cbn.
    intros [= _ ->]. apply (IH (fun y ty ey Hy => Hbody y ty ey (or_intror Hy))
                               t' e eq_refl).
  - done.
Qed.


Lemma dispatch_error (v : Validator) (ft : StructField)
    (reported rv : rvalue) (key : string) (arg : Value) (t : list call)
    (e : error) :
  reported = rv \/ In reported (elements_of rv) ->
  dispatch v defaultErrorFormat ft reported key arg = (t, Ret (Some e)) ->
  error_of_field ft rv e.
Proof.
  intros Hrep. unfold dispatch.
  destruct (_ !! key) as [fn|]; [| done].
  intros [= _ He]. destruct (fn arg) as [[cause|]|msg]; cbn in He; try done.
  injection He as <-. by exists cause, reported.
Qed.



Lemma eachElement_error (v : Validator) (ft : StructField) (rv : rvalue)
    (innerTags : list string) (elem : rvalue) (t : list call) (e : error) :
  In elem (elements_of rv) ->
  eachElement v defaultErrorFormat ft innerTags elem = (t, Ret (Some e)) ->
  error_of_field ft rv e.
Proof.
  intros Helem. unfold eachElement.
  apply for_each_error. intros it ti ei _.
  destruct (String.eqb (TrimSpace it) ""); [done |].
  destruct (segmentValue elem (Name ft) (TrimSpace it)) as [key arg].
  apply dispatch_error. by right.
Qed.


Lemma proceedTag_error (v : Validator) (rv : rvalue) (ft : StructField)
    (seg : string) (t : list call) (e : error) :
  proceedTag v defaultErrorFormat rv ft seg = (t, Ret (Some e)) ->
  error_of_field ft rv e.
Proof.
  rewrite proceedTag_unfold.
  destruct (String.eqb (TrimSpace seg) ""); [done |]. cbn zeta.
  destruct (String.eqb (segment_key seg) eachTag).
  - assert (Hother :
      ([] : list call, Ret (defaultErrorFormat ft rv EachNotSlice))
        = (t, Ret (Some e)) -> error_of_field ft rv e).
    { intros [= _ <-]. exists EachNotSlice, rv. by split; [| left]. }
    destruct (kind rv); try exact Hother.
    all: destruct (Param _) as [inner|msg]; [| done].
    all: destruct (splitTopLevelByComma _) as [innerTags|err].
    2, 4: intros [= _ <-]; exists (GrammarError err), rv; by split; [| left].
    all: apply for_each_error; intros elem te ee Helem;
      by apply eachElement_error.
  - apply dispatch_error. by left.
Qed.


Lemma proceedTags_error (v : Validator) (rv : rvalue) (ft : StructField)
    (t : list call) (e : error) :
  proceedTags v defaultErrorFormat rv ft = (t, Ret (Some e)) ->
  error_of_field ft rv e.
Proof.
  unfold proceedTags.
  destruct (String.eqb _ ""); [done |].
  destruct (splitTopLevelByComma _) as [tags|err].
  - apply for_each_error. intros seg ts es _. apply proceedTag_error.
  - intros [= _ <-]. exists (GrammarError err), rv. by split; [| left].
Qed.

End Engine.



(** X7: unknown validators are ignored at runtime: a field all of whose
    segments carry names that are neither "each" nor registered validates
    without error and without a callback, whatever its value. *)
Theorem unknown_validators_are_ignored
    (v : Validator) (fmt : ErrorFormatFunc) (rv : rvalue) (ft : StructField)
    (segs : list string) :
  splitTopLevelByComma (Get (Tag ft) mainTag) = inl segs ->
  Forall (fun seg => segment_key seg <> eachTag /\
                     validators v !! segment_key seg = None) segs ->
  proceedTags v fmt rv ft = ([], Ret None).
Proof.
  intros Hsplit Hall. unfold proceedTags.
  destruct (String.eqb _ ""); [done |]. rewrite Hsplit.
  apply for_each_all_skip. intros seg Hin.
  rewrite List.Forall_forall in Hall. destruct (Hall seg Hin) as [Hne Hreg].
  rewrite proceedTag_unfold.
  destruct (String.eqb (Str.TrimSpace seg) ""); [done |]. cbn zeta.
  destruct (String.eqb_spec (segment_key seg) eachTag); [done |].
  unfold dispatch, TagValidationFunc in *. by rewrite Hreg.
Qed.

Lemma unknown_validators_are_ignored_witness :
  proceedTags NewValidator defaultErrorFormat (VString "")
    (mkStructField "Creds" [("lakery", "each:{}, minimum=3 ,email")])
  = ([], Ret None).
Proof.
  apply (unknown_validators_are_ignored NewValidator defaultErrorFormat
           (VString "")
           (mkStructField "Creds" [("lakery", "each:{}, minimum=3 ,email")])
           ["each:{}"; " minimum=3 "; "email"]).
  - reflexivity.
  - repeat constructor; (discriminate || reflexivity).
Defined.

(** X8: an each clause on a field that is neither a slice nor an array
    fails with "each can be used only with slice or array", reported for the
    field value; no parameter is read and no callback is dispatched. *)
Theorem each_needs_slice_or_array
    (v : Validator) (fmt : ErrorFormatFunc) (rv : rvalue) (ft : StructField)
    (seg : string) :
  segment_key seg = eachTag ->
  kind rv <> Slice -> kind rv <> Array ->
  proceedTag v fmt rv ft seg = ([], Ret (fmt ft rv EachNotSlice)).
Proof.
  intros Hkey Hslice Harray. rewrite proceedTag_unfold.
  destruct (String.eqb_spec (Str.TrimSpace seg) "") as [Hblank | _].
  { rewrite (segment_key_empty seg Hblank) in Hkey. discriminate Hkey. }
  cbn zeta. rewrite Hkey. cbn [String.eqb Ascii.eqb Bool.eqb eachTag].
  by destruct (kind rv).
Qed.

Lemma each_needs_slice_or_array_witness :
  proceedTag NewValidator defaultErrorFormat (VString "aa")
             (mkStructField "Name" [("lakery", "each")]) " each "
  = ([], Ret (Some (FieldError "Name" EachNotSlice (VString "aa")))).
Proof.
  apply (each_needs_slice_or_array NewValidator defaultErrorFormat
           (VString "aa") (mkStructField "Name" [("lakery", "each")])
           " each "); (reflexivity || discriminate).
Defined.


(** X10: with the default formatter every error a record validation
    returns blames a field of the record: it carries that field's name and
    reports the field's value or, for a failure inside an each clause, the
    failing element. *)
Theorem Validate_error_blames_a_field
    (v : Validator) (fields : list (StructField * rvalue))
    (t : list call) (e : error) :
  Validate (Some v) defaultErrorFormat (VStruct fields) = (t, Ret (Some e)) ->
  exists ft rv, In (ft, rv) fields /\ error_of_field ft rv e.
Proof.
  cbn [Validate kind]. unfold validateStruct.
  apply (for_each_error
           (fun e => exists ft rv, In (ft, rv) fields /\ error_of_field ft rv e)).
  intros [ft rv] tf ef Hin Hf. cbn [fst snd] in Hf.
  exists ft, rv. split; [done |]. by apply (proceedTags_error v rv ft tf ef).
Qed.

Lemma Validate_error_blames_a_field_witness :
  exists ft rv,
    In (ft, rv)
       [(mkStructField "Name" [("lakery", "min=1")], VString "ok");
        (mkStructField "Creds" [("lakery", "each={max=1}")],
         VSlice [VString "a"; VString "bb"])] /\
    error_of_field ft rv
      (FieldError "Creds" (MaxLength 1) (VString "bb")).
Proof.
  apply (Validate_error_blames_a_field NewValidator _
           [("min", mkValue (VString "ok") "Name" "1");
            ("max", mkValue (VString "a") "Creds" "1");
            ("max", mkValue (VString "bb") "Creds" "1")]).
  reflexivity.
Defined.

(** * More on the built-in validators and the registry *)

Ltac split_ltb :=
  match goal with
  | |- context [Z.ltb ?x ?y] => destruct (Z.ltb_spec x y)
  end.

Section Builtins.

Lemma Param_of_parsed (rv : rvalue) (n p : string) (N : Z) :
  Str.Atoi p = Some N -> Param (mkValue rv n p) = Ret p.
Proof.
  intros HN. unfold Param; cbn [param name].
  destruct (String.eqb_spec p "") as [-> | _]; [discriminate HN | done].
Qed.

Lemma builtinMin_parsed (rv : rvalue) (n p : string) (N : Z) :
  Str.Atoi p = Some N ->
  builtinMin (mkValue rv n p) =
    match rv with
    | VPtr None => if 0 <? N then Ret (Some (MinLength N)) else Ret None
    | VPtr (Some target) => Ret (minCheck N target)
    | _ => Ret (minCheck N rv)
    end.
Proof.
  intros HN. unfold builtinMin. rewrite (Param_of_parsed rv n p N HN).
  cbn [bind val]. rewrite HN. by destruct rv as [| | | | | | | | | | | [?|] | |].
Qed.

Lemma builtinMax_parsed (rv : rvalue) (n p : string) (N : Z) :
  Str.Atoi p = Some N ->
  builtinMax (mkValue rv n p) =
    match rv with
    | VPtr None => Ret None
    | VPtr (Some target) => Ret (maxCheck N target)
    | _ => Ret (maxCheck N rv)
    end.
Proof.
  intros HN. unfold builtinMax. rewrite (Param_of_parsed rv n p N HN).
  cbn [bind val]. rewrite HN. by destruct rv as [| | | | | | | | | | | [?|] | |].
Qed.

Lemma measure_not_pointer (rv : rvalue) (m : Z) :
  measure rv = Some m -> kind rv <> Pointer.
Proof. by destruct rv. Qed.

End Builtins.

(** X11: min and max on a length or a signed number.  For a string, slice,
    array or map the measure is its length, for a signed integer its value;
    with parameters that parse, min=a passes exactly when a <= measure and
    max=b exactly when measure <= b. *)
Theorem min_max_bound_the_measure
    (rv : rvalue) (n pa pb : string) (a b m : Z) :
  measure rv = Some m ->
  Str.Atoi pa = Some a -> Str.Atoi pb = Some b ->
  (builtinMin (mkValue rv n pa) = Ret None <-> a <= m) /\
  (builtinMax (mkValue rv n pb) = Ret None <-> m <= b).
Proof.
  intros Hm Ha Hb.
  rewrite (builtinMin_parsed rv n pa a Ha), (builtinMax_parsed rv n pb b Hb).
  destruct rv; try discriminate Hm; injection Hm as <-;
    unfold minCheck, maxCheck;
    (split; split_ltb; split; intros; cbn [Len] in *;
     (done || lia || (exfalso; lia))).
Qed.

Lemma min_max_bound_the_measure_witness :
  (builtinMin (mkValue (VString "john") "Name" "2") = Ret None <-> 2 <= 4) /\
  (builtinMax (mkValue (VString "john") "Name" "+3") = Ret None <-> 4 <= 3).
Proof.
  apply (min_max_bound_the_measure (VString "john") "Name" "2" "+3" 2 3 4);
    reflexivity.
Defined.

(** X12: the built-ins look through one pointer and no further: on a
    non-nil pointer to a value that is not itself a pointer they behave as
    on that value, whatever the parameter string; min and max on a pointer
    to a pointer answer "not applicable" once the parameter parses. *)
Theorem builtins_follow_one_pointer
    (x : rvalue) (n p : string) :
  kind x <> Pointer ->
  builtinMin (mkValue (VPtr (Some x)) n p) = builtinMin (mkValue x n p) /\
  builtinMax (mkValue (VPtr (Some x)) n p) = builtinMax (mkValue x n p) /\
  builtinRequired (mkValue (VPtr (Some x)) n p)
  = builtinRequired (mkValue x n p) /\
  (forall N target, Str.Atoi p = Some N ->
     builtinMin (mkValue (VPtr (Some (VPtr target))) n p)
     = Ret (Some (MinNotApplicable Pointer)) /\
     builtinMax (mkValue (VPtr (Some (VPtr target))) n p)
     = Ret (Some (MaxNotApplicable Pointer))).
Proof.
  intros Hx.
  assert (Hnp : forall target, x <> VPtr target).
  { intros target ->. by apply Hx. }
  repeat split.
  - unfold builtinMin. destruct (Param _); cbn [bind]; [| done].
    destruct (Str.Atoi _); [| done]. cbn [val].
    destruct x; try done; by destruct (Hnp target).
  - unfold builtinMax. destruct (Param _); cbn [bind]; [| done].
    destruct (Str.Atoi _); [| done]. cbn [val].
    destruct x; try done; by destruct (Hnp target).
  - unfold builtinRequired. cbn [val].
    destruct x; try done; by destruct (Hnp target).
  - by rewrite (builtinMin_parsed _ n p N H).
  - by rewrite (builtinMax_parsed _ n p N H).
Qed.

Lemma builtins_follow_one_pointer_witness :
  builtinMin (mkValue (VPtr (Some (VString "ab"))) "Name" "3")
  = builtinMin (mkValue (VString "ab") "Name" "3") /\
  builtinMax (mkValue (VPtr (Some (VString "ab"))) "Name" "3")
  = builtinMax (mkValue (VString "ab") "Name" "3") /\
  builtinRequired (mkValue (VPtr (Some (VString "ab"))) "Name" "3")
  = builtinRequired (mkValue (VString "ab") "Name" "3") /\
  (forall N target, Str.Atoi "3" = Some N ->
     builtinMin (mkValue (VPtr (Some (VPtr target))) "Name" "3")
     = Ret (Some (MinNotApplicable Pointer)) /\
     builtinMax (mkValue (VPtr (Some (VPtr target))) "Name" "3")
     = Ret (Some (MaxNotApplicable Pointer))).
Proof.
  apply (builtins_follow_one_pointer (VString "ab") "Name" "3").
  discriminate.
Defined.

(** X13: min and max never pass without an integer parameter, whatever the
    value: an empty parameter makes them panic in [Value.Param], and a
    non-empty parameter that [strconv.Atoi] rejects gives the
    bad-parameter error before the value is looked at. *)
Theorem min_max_need_an_integer (rv : rvalue) (n p : string) :
  Str.Atoi p = None ->
  builtinMin (mkValue rv n p)
  = (if String.eqb p "" then Panic n else Ret (Some (MinParam p))) /\
  builtinMax (mkValue rv n p)
  = (if String.eqb p "" then Panic n else Ret (Some (MaxParam p))).
Proof.
  intros Hp. unfold builtinMin, builtinMax, Param; cbn [param name].
  destruct (String.eqb p ""); cbn [bind]; [done |]. by rewrite Hp.
Qed.

Lemma min_max_need_an_integer_witness :
  builtinMin (mkValue (VPtr None) "Age" "1e3")
  = (if String.eqb "1e3" "" then Panic "Age" else Ret (Some (MinParam "1e3")))
  /\
  builtinMax (mkValue (VPtr None) "Age" "1e3")
  = (if String.eqb "1e3" "" then Panic "Age" else Ret (Some (MaxParam "1e3"))).
Proof.
  apply (min_max_need_an_integer (VPtr None) "Age" "1e3"). reflexivity.
Defined.

(** X14: registration is last-writer-wins.  After [RegisterTag tag fn] a
    lookup of [tag] finds [fn], every other name is looked up as before,
    the listed names are the old ones and [tag], and an earlier
    registration under the same name leaves no trace. *)
Theorem RegisterTag_overwrites
    (v : Validator) (tag : string) (fn fn' : TagValidationFunc) :
  validators (RegisterTag tag fn v) !! tag = Some fn /\
  (forall other, other <> tag ->
     validators (RegisterTag tag fn v) !! other = validators v !! other) /\
  ListValidators (RegisterTag tag fn v) = {[ tag ]} ∪ ListValidators v /\
  RegisterTag tag fn (RegisterTag tag fn' v) = RegisterTag tag fn v.
Proof.
  unfold RegisterTag, ListValidators, TagValidationFunc in *. cbn.
  repeat split.
  - apply lookup_insert_eq.
  - intros other Hne. by apply lookup_insert_ne.
  - apply dom_insert_L.
  - f_equal. apply insert_insert_eq.
Qed.

(** * More on the static analyzer *)

Section Analyzer.
Import Str TagValidator.

Lemma after_nil (tv : t) : after [] tv = tv.
Proof. by destruct tv. Qed.

Lemma after_addError (errs : list TagError) (tv : t) (pos : Position)
    (f tag : string) (msg : message) :
  addError (after errs tv) pos f tag msg
  = after errs (addError tv pos f tag msg).
Proof. unfold addError, after. cbn. by rewrite List.app_assoc. Qed.

Lemma validateValidatorParam_after (errs : list TagError) (tv : t)
    (pos : Position) (f tag validator p : string) :
  validateValidatorParam (after errs tv) pos f tag validator p
  = after errs (validateValidatorParam tv pos f tag validator p).
Proof.
  unfold validateValidatorParam.
  destruct (_ || _).
  - destruct (Atoi p); [done | apply after_addError].
  - destruct (String.eqb validator "required"); [| done].
    destruct (negb _); [apply after_addError | done].
Qed.

Lemma forParts_after (errs : list TagError) (body : t -> string -> option t)
    (segs : list string) :
  (forall tv p, body (after errs tv) p = option_map (after errs) (body tv p)) ->
  forall tv,
    forParts body (after errs tv) segs
    = option_map (after errs) (forParts body tv segs).
Proof.
  intros Hbody. induction segs as [|p segs IH]; intros tv; [done |].
  cbn [forParts]. rewrite Hbody.
  destruct (body tv p) as [tv'|]; [apply IH | done].
Qed.

Lemma validateTagPart_after (errs : list TagError) (fuel : nat) :
  forall tv pos f full part,
    validateTagPart fuel (after errs tv) pos f full part
    = option_map (after errs) (validateTagPart fuel tv pos f full part).
Proof.
  induction fuel as [|fuel IH]; intros tv pos f full part; [done |].
  cbn [validateTagPart].
  destruct (SplitN2 part) as [k rest].
  destruct (String.eqb (TrimSpace k) "");
    [cbn; by rewrite after_addError |].
  destruct (String.eqb (TrimSpace k) "each").
  - destruct rest as [r|]; [| done].
    match goal with |- context [String.eqb ?value ""] =>
      destruct (String.eqb value ""); [done |];
      destruct (TagValidator.splitTopLevelByComma value) as [inner|err]
    end.
    + apply forParts_after. intros tv1 p.
      destruct (String.eqb (TrimSpace p) ""); [done | apply IH].
    + cbn. by rewrite after_addError.
  - change (validatorExists (after errs tv) (TrimSpace k))
      with (validatorExists tv (TrimSpace k)).
    destruct (negb (validatorExists tv (TrimSpace k))).
    + destruct (HasPrefix (TrimSpace k) "each:"); cbn;
        by rewrite after_addError.
    + destruct rest as [r|]; [| done].
      cbn. by rewrite validateValidatorParam_after.
Qed.

Lemma validateLakeryTag_after (errs : list TagError) (tv : t)
    (pos : Position) (f tag : string) :
  validateLakeryTag (after errs tv) pos f tag
  = option_map (after errs) (validateLakeryTag tv pos f tag).
Proof.
  unfold validateLakeryTag.
  destruct (TagValidator.splitTopLevelByComma tag) as [segs|err].
  - apply forParts_after. intros tv1 p.
    destruct (String.eqb (TrimSpace p) "");
      [done | apply validateTagPart_after].
  - cbn. by rewrite after_addError.
Qed.

Lemma kept_refl (pos : Position) (f tag : string) (tv : t) :
  kept pos f tag tv tv.
Proof. by split. Qed.

Lemma kept_addError (pos : Position) (f tag : string) (tv : t)
    (msg : message) :
  kept pos f tag tv (addError tv pos f tag msg).
Proof.
  split; [done |]. intros H. cbn. apply Forall_app. split; [done |].
  by repeat constructor.
Qed.

Lemma kept_trans (pos : Position) (f tag : string) (a b c : t) :
  kept pos f tag a b -> kept pos f tag b c -> kept pos f tag a c.
Proof.
  intros [H1 H2] [H3 H4]. split; [congruence | auto].
Qed.

Lemma kept_validateValidatorParam (pos : Position) (f tag : string) (tv : t)
    (validator p : string) :
  kept pos f tag tv (validateValidatorParam tv pos f tag validator p).
Proof.
  unfold validateValidatorParam.
  destruct (_ || _).
  - destruct (Atoi p); [apply kept_refl | apply kept_addError].
  - destruct (String.eqb validator "required"); [| apply kept_refl].
    destruct (negb _); [apply kept_addError | apply kept_refl].
Qed.

Lemma forParts_kept (pos : Position) (f tag : string)
    (body : t -> string -> option t) (segs : list string) :
  (forall tv p tv', body tv p = Some tv' -> kept pos f tag tv tv') ->
  forall tv tv', forParts body tv segs = Some tv' -> kept pos f tag tv tv'.
Proof.
  intros Hbody. induction segs as [|p segs IH]; intros tv tv'; cbn.
  - intros [= <-]. apply kept_refl.
  - destruct (body tv p) as [tv1|] eqn:H1; [| done]. intros H2.
    eapply kept_trans; [by apply (Hbody tv p) | by apply IH].
Qed.

Lemma validateTagPart_kept (pos : Position) (f full : string) (fuel : nat) :
  forall tv part tv',
    validateTagPart fuel tv pos f full part = Some tv' ->
    kept pos f full tv tv'.
Proof.
  induction fuel as [|fuel IH]; intros tv part tv'; [done |].
  cbn [validateTagPart].
  destruct (SplitN2 part) as [k rest].
  destruct (String.eqb (TrimSpace k) "");
    [intros [= <-]; apply kept_addError |].
  destruct (String.eqb (TrimSpace k) "each").
  - destruct rest as [r|]; [| intros [= <-]; apply kept_refl].
    match goal with |- context [String.eqb ?value ""] =>
      destruct (String.eqb value ""); [intros [= <-]; apply kept_refl |];
      destruct (TagValidator.splitTopLevelByComma value) as [inner|err]
    end.
    + apply forParts_kept. intros tv1 p tv1'.
      destruct (String.eqb (TrimSpace p) "");
        [intros [= <-]; apply kept_refl | apply IH].
    + intros [= <-]. apply kept_addError.
  - destruct (negb (validatorExists tv (TrimSpace k))).
    + destruct (HasPrefix (TrimSpace k) "each:");
        intros [= <-]; apply kept_addError.
    + destruct rest as [r|]; intros [= <-];
        [apply kept_validateValidatorParam | apply kept_refl].
Qed.

Lemma validateLakeryTag_kept (tv tv' : t) (pos : Position) (f tag : string) :
  validateLakeryTag tv pos f tag = Some tv' -> kept pos f tag tv tv'.
Proof.
  unfold validateLakeryTag.
  destruct (TagValidator.splitTopLevelByComma tag) as [segs|err].
  - apply forParts_kept. intros tv1 p tv1'.
    destruct (String.eqb (TrimSpace p) "");
      [intros [= <-]; apply kept_refl | apply validateTagPart_kept].
  - intros [= <-]. apply kept_addError.
Qed.

(** The analysis of one annotation, framed: it yields a state, keeps the
    registrations, and appends to the diagnostics reported before the ones
    it reports when started without any. *)
Lemma validateLakeryTag_frame (tv : t) (pos : Position) (f tag : string) :
  exists new,
    validateLakeryTag (mkTagValidator (customValidators tv) []) pos f tag
    = Some (mkTagValidator (customValidators tv) new) /\
    validateLakeryTag tv pos f tag
    = Some (mkTagValidator (customValidators tv) (errors tv ++ new)) /\
    Forall (labelled pos f tag) new.
Proof.
  set (tv0 := mkTagValidator (customValidators tv) []).
  destruct (validateLakeryTag_total tv0 pos f tag) as [r Hr].
  destruct (validateLakeryTag_kept tv0 r pos f tag Hr) as [Hcv Hlab].
  specialize (Hlab ltac:(by constructor)).
  destruct r as [cv new]. cbn in Hcv, Hlab. subst cv.
  exists new. split; [exact Hr | split; [| exact Hlab]].
  assert (Htv : tv = after (errors tv) tv0).
  { destruct tv. unfold after, tv0. cbn. by rewrite List.app_nil_r. }
  rewrite Htv at 1. rewrite validateLakeryTag_after, Hr. reflexivity.
Qed.

End Analyzer.

(** X15: the analysis of one annotation always returns, never touches the
    custom registrations, and only appends: the diagnostics it adds are the
    ones it reports on a fresh error list, whatever was reported before,
    and each carries the position, field name and annotation it was
    called with. *)
Theorem validateLakeryTag_appends_labelled
    (tv : TagValidator.t) (pos : TagValidator.Position) (f tag : string) :
  exists new,
    TagValidator.validateLakeryTag
      (TagValidator.mkTagValidator (TagValidator.customValidators tv) [])
      pos f tag
    = Some (TagValidator.mkTagValidator
              (TagValidator.customValidators tv) new) /\
    TagValidator.validateLakeryTag tv pos f tag
    = Some (TagValidator.mkTagValidator
              (TagValidator.customValidators tv)
              (TagValidator.errors tv ++ new)) /\
    Forall (fun e => TagValidator.Pos e = pos /\
                     TagValidator.Field e = f /\
                     TagValidator.Tag e = tag) new.
Proof. exact (validateLakeryTag_frame tv pos f tag). Qed.

(** X16: the analyzer collects instead of stopping: analysing the fields
    of a record declaration appends, field after field in declaration
    order, the diagnostics each field has on its own; a diagnostic of an
    earlier field never hides one of a later field. *)
Theorem validateStruct_collects
    (tv : TagValidator.t) (fields : list TagValidator.astField) :
  TagValidator.validateStruct tv fields
  = Some (TagValidator.mkTagValidator
            (TagValidator.customValidators tv)
            (TagValidator.errors tv
             ++ concat (map (TagValidator.diagnostics
                               (TagValidator.customValidators tv)) fields))).
Proof.
  revert tv. induction fields as [|field fields IH]; intros tv.
  - cbn. rewrite List.app_nil_r. by destruct tv.
  - cbn [TagValidator.validateStruct map concat].
    assert (Hfield :
      TagValidator.validateField tv field
      = Some (TagValidator.mkTagValidator
                (TagValidator.customValidators tv)
                (TagValidator.errors tv
                 ++ TagValidator.diagnostics
                      (TagValidator.customValidators tv) field))).
    { unfold TagValidator.diagnostics, TagValidator.validateField.
      destruct (TagValidator.FieldTag field) as [tag|];
        [| cbn; rewrite List.app_nil_r; by destruct tv].
      cbn zeta. destruct (negb _);
        [| cbn; rewrite List.app_nil_r; by destruct tv].
      destruct (validateLakeryTag_frame tv (TagValidator.FieldPos field)
                  (TagValidator.fieldName field) (Get tag "lakery"))
        as (new & H0 & H1 & _).
      by rewrite H0, H1. }
    rewrite Hfield, IH. cbn. by rewrite List.app_assoc.
Qed.

(** X17: a brace error stops both consumers at once and with the same
    error: the engine returns it, formatted for the field, before any
    segment is read, and the analyzer reports it as the single diagnostic
    of the annotation. *)
Theorem brace_error_stops_engine_and_analyzer
    (v : Validator) (fmt : ErrorFormatFunc) (rv : rvalue) (ft : StructField)
    (tv : TagValidator.t) (pos : TagValidator.Position) (f : string)
    (e : brace_error) :
  splitTopLevelByComma (Get (Tag ft) mainTag) = inr e ->
  proceedTags v fmt rv ft = ([], Ret (fmt ft rv (GrammarError e))) /\
  TagValidator.validateLakeryTag tv pos f (Get (Tag ft) mainTag)
  = Some (TagValidator.addError tv pos f (Get (Tag ft) mainTag)
            (TagValidator.Braces e)).
Proof.
  intros Hsplit. split.
  - unfold proceedTags.
    destruct (String.eqb_spec (Get (Tag ft) mainTag) "") as [Hempty | _].
    + rewrite Hempty in Hsplit. discriminate Hsplit.
    + by rewrite Hsplit.
  - unfold TagValidator.validateLakeryTag.
    by rewrite analyzer_split_is_engine_split, Hsplit.
Qed.

Lemma brace_error_stops_engine_and_analyzer_witness :
  proceedTags NewValidator defaultErrorFormat (VSlice [VString "a"])
    (mkStructField "Creds" [("lakery", "required,each={min=1")])
  = ([], Ret (defaultErrorFormat
                (mkStructField "Creds" [("lakery", "required,each={min=1")])
                (VSlice [VString "a"])
                (GrammarError (UnclosedBraces "required,each={min=1")))) /\
  TagValidator.validateLakeryTag TagValidator.NewTagValidator
    (TagValidator.mkPosition "types.go" 7 2) "Creds"
    (Get (Tag (mkStructField "Creds" [("lakery", "required,each={min=1")]))
         mainTag)
  = Some (TagValidator.addError TagValidator.NewTagValidator
            (TagValidator.mkPosition "types.go" 7 2) "Creds"
            (Get (Tag (mkStructField "Creds"
                         [("lakery", "required,each={min=1")])) mainTag)
            (TagValidator.Braces (UnclosedBraces "required,each={min=1"))).
Proof.
  apply (brace_error_stops_engine_and_analyzer NewValidator
           defaultErrorFormat (VSlice [VString "a"])
           (mkStructField "Creds" [("lakery", "required,each={min=1")])
           TagValidator.NewTagValidator
           (TagValidator.mkPosition "types.go" 7 2) "Creds"
           (UnclosedBraces "required,each={min=1")).
  reflexivity.
Defined.

(** * The analyzer against the engine on min and max *)

Section Numeric.
Import Str TagValidator.

Lemma addError_changes (tv : t) (pos : Position) (f tag : string)
    (msg : message) :
  addError tv pos f tag msg <> tv.
Proof.
  intros H. apply (f_equal (fun x => List.length (errors x))) in H.
  cbn in H. rewrite length_app in H. cbn in H. lia.
Qed.

Lemma validatorExists_builtin (tv : t) (key : string) :
  key = minTag \/ key = maxTag -> validatorExists tv key = true.
Proof. by intros [-> | ->]. Qed.

Lemma numeric_key_plain (key : string) :
  key = minTag \/ key = maxTag ->
  String.eqb key "" = false /\ String.eqb key "each" = false /\
  (String.eqb key "min" || String.eqb key "max") = true.
Proof. by intros [-> | ->]. Qed.

Lemma validateTagPart_numeric (fuel : nat) (tv : t) (pos : Position)
    (f full part k : string) (rest : option string) :
  SplitN2 part = (k, rest) ->
  TrimSpace k = minTag \/ TrimSpace k = maxTag ->
  validateTagPart (S fuel) tv pos f full part =
    match rest with
    | None => Some tv
    | Some r =>
      match Atoi (TrimSpace r) with
      | Some _ => Some tv
      | None => Some (addError tv pos f full
                        (ExpectsInteger (TrimSpace k) (TrimSpace r)))
      end
    end.
Proof.
  intros Hsplit Hkey. cbn [validateTagPart]. rewrite Hsplit.
  destruct (numeric_key_plain _ Hkey) as (-> & -> & Hnum).
  rewrite (validatorExists_builtin tv _ Hkey). cbn [negb].
  destruct rest as [r|]; [| done].
  unfold validateValidatorParam. rewrite Hnum.
  by destruct (Atoi (TrimSpace r)).
Qed.

End Numeric.

(** X18: on a min or max segment that has a parameter, the analyzer tests
    the very string the engine stores for the validator: it stays silent
    exactly when the parameter of the runtime [Value] parses as an
    integer. *)
Theorem static_integer_check_agrees_with_runtime
    (tv : TagValidator.t) (pos : TagValidator.Position) (f full : string)
    (fuel : nat) (rv : rvalue) (n seg : string) :
  segment_key seg = minTag \/ segment_key seg = maxTag ->
  has_equals (Str.TrimSpace seg) = true ->
  (TagValidator.validateTagPart (S fuel) tv pos f full (Str.TrimSpace seg)
   = Some tv
   <-> exists N, Str.Atoi (param (snd (segmentValue rv n (Str.TrimSpace seg))))
                 = Some N).
Proof.
  intros Hkey Heq. unfold segment_key in Hkey.
  destruct (has_equals_cut _ Heq) as (k & r & Hseg & Hk).
  pose proof (SplitN2_at_equals k r Hk) as Hsplit. rewrite <- Hseg in Hsplit.
  rewrite Hsplit in Hkey. cbn [fst] in Hkey.
  rewrite (validateTagPart_numeric fuel tv pos f full _ k (Some r) Hsplit Hkey).
  unfold segmentValue. rewrite Hsplit. cbn [snd param].
  destruct (Str.Atoi (Str.TrimSpace r)) as [N|]; split; try done.
  - intros _. by exists N.
  - intros [= H]. by destruct (addError_changes _ _ _ _ _ H).
  - intros [N HN]. discriminate HN.
Qed.

Lemma static_integer_check_agrees_with_runtime_witness :
  TagValidator.validateTagPart 1 TagValidator.NewTagValidator
    (TagValidator.mkPosition "types.go" 4 2) "Age" "min= 18 "
    (Str.TrimSpace " min= 18 ")
  = Some TagValidator.NewTagValidator
  <-> exists N,
      Str.Atoi (param (snd (segmentValue (VInt 20) "Age"
                              (Str.TrimSpace " min= 18 ")))) = Some N.
Proof.
  apply (static_integer_check_agrees_with_runtime
           TagValidator.NewTagValidator
           (TagValidator.mkPosition "types.go" 4 2) "Age" "min= 18 " 0
           (VInt 20) "Age" " min= 18 ").
  - left; reflexivity.
  - reflexivity.
Defined.

(** X19: a min or max segment without "=" passes the static analysis
    without a diagnostic, and makes the engine panic: the built-in is
    dispatched with an empty parameter and [Value.Param] panics, whatever
    the field value. *)
Theorem bare_min_max_pass_analysis_and_panic
    (fmt : ErrorFormatFunc) (rv : rvalue) (ft : StructField)
    (tv : TagValidator.t) (pos : TagValidator.Position) (f full : string)
    (fuel : nat) (seg : string) :
  segment_key seg = minTag \/ segment_key seg = maxTag ->
  has_equals (Str.TrimSpace seg) = false ->
  TagValidator.validateTagPart (S fuel) tv pos f full (Str.TrimSpace seg)
  = Some tv /\
  proceedTag NewValidator fmt rv ft seg
  = ([(segment_key seg, mkValue rv (Name ft) "")], Panic (Name ft)).
Proof.
  intros Hkey Heq.
  pose proof (SplitN2_no_equals _ Heq) as Hsplit.
  assert (Hkey' : Str.TrimSpace (Str.TrimSpace seg) = minTag \/
                  Str.TrimSpace (Str.TrimSpace seg) = maxTag).
  { unfold segment_key in Hkey. by rewrite Hsplit in Hkey. }
  split.
  - by rewrite (validateTagPart_numeric fuel tv pos f full _ _ None
                  Hsplit Hkey').
  - rewrite proceedTag_unfold.
    destruct (String.eqb_spec (Str.TrimSpace seg) "") as [Hblank | _].
    { rewrite (segment_key_empty seg Hblank) in Hkey.
      by destruct Hkey. }
    cbn zeta. unfold segmentValue. rewrite Hsplit. cbn [snd].
    by destruct Hkey as [-> | ->].
Qed.

Lemma bare_min_max_pass_analysis_and_panic_witness :
  TagValidator.validateTagPart 1 TagValidator.NewTagValidator
    (TagValidator.mkPosition "types.go" 4 2) "Age" "required,max"
    (Str.TrimSpace "max")
  = Some TagValidator.NewTagValidator /\
  proceedTag NewValidator defaultErrorFormat (VInt 20)
             (mkStructField "Age" [("lakery", "required,max")]) "max"
  = ([(segment_key "max", mkValue (VInt 20) "Age" "")], Panic "Age").
Proof.
  apply (bare_min_max_pass_analysis_and_panic defaultErrorFormat (VInt 20)
           (mkStructField "Age" [("lakery", "required,max")])
           TagValidator.NewTagValidator
           (TagValidator.mkPosition "types.go" 4 2) "Age" "required,max" 0
           "max").
  - right; reflexivity.
  - reflexivity.
Defined.

(** * The inner split of an each clause cannot fail *)

Section Depth.
Import Str StrFacts.

Lemma final_depth_cons (c : ascii) (s : string) :
  final_depth (String c s) = brace_delta c + final_depth s.
Proof.
  unfold final_depth. cbn [depth_from].
  rewrite depth_from_shift. unfold final_depth. lia.
Qed.

Lemma delta_of_byte (c : ascii) :
  byte c <> 123%nat -> byte c <> 125%nat -> brace_delta c = 0.
Proof.
  intros H1 H2. unfold brace_delta.
  destruct (Ascii.eqb_spec c "{") as [-> | _]; [by destruct H1 |].
  destruct (Ascii.eqb_spec c "}") as [-> | _]; [by destruct H2 | done].
Qed.

Ltac bytes_of H :=
  unfold asciiSpace, space2, space3 in H;
  repeat (rewrite ?orb_true_iff, ?andb_true_iff, ?Nat.eqb_eq, ?Nat.leb_le in H).

Lemma delta_of_asciiSpace (c : ascii) :
  asciiSpace c = true -> brace_delta c = 0.
Proof. intros H. bytes_of H. apply delta_of_byte; lia. Qed.

Lemma delta_of_space2 (c1 c2 : ascii) :
  space2 c1 c2 = true -> brace_delta c1 = 0 /\ brace_delta c2 = 0.
Proof. intros H. bytes_of H. split; apply delta_of_byte; lia. Qed.

Lemma delta_of_space3 (c1 c2 c3 : ascii) :
  space3 c1 c2 c3 = true ->
  brace_delta c1 = 0 /\ brace_delta c2 = 0 /\ brace_delta c3 = 0.
Proof. intros H. bytes_of H. repeat split; apply delta_of_byte; lia. Qed.

Lemma final_depth_trimLeft_fuel (n : nat) (s : string) :
  (String.length s <= n)%nat -> final_depth (trimLeft s) = final_depth s.
Proof.
  revert s; induction n as [|n IH]; intros s Hn.
  - destruct s; [done | cbn in Hn; lia].
  - destruct s as [|c1 s1]; [done |]. cbn [String.length] in Hn.
    cbn [trimLeft].
    destruct (asciiSpace c1) eqn:H1.
    { rewrite IH by lia. rewrite final_depth_cons.
      rewrite (delta_of_asciiSpace c1 H1). lia. }
    destruct s1 as [|c2 s2]; [done |]. cbn [String.length] in Hn.
    destruct (space2 c1 c2) eqn:H2.
    { rewrite IH by lia. rewrite !final_depth_cons.
      destruct (delta_of_space2 c1 c2 H2) as [-> ->]. lia. }
    destruct s2 as [|c3 s3]; [done |]. cbn [String.length] in Hn.
    destruct (space3 c1 c2 c3) eqn:H3; [| done].
    rewrite IH by lia. rewrite !final_depth_cons.
    destruct (delta_of_space3 c1 c2 c3 H3) as (-> & -> & ->). lia.
Qed.

Lemma final_depth_trimLeftRev_fuel (n : nat) (s : string) :
  (String.length s <= n)%nat -> final_depth (trimLeftRev s) = final_depth s.
Proof.
  revert s; induction n as [|n IH]; intros s Hn.
  - destruct s; [done | cbn in Hn; lia].
  - destruct s as [|c1 s1]; [done |]. cbn [String.length] in Hn.
    cbn [trimLeftRev].
    destruct (asciiSpace c1) eqn:H1.
    { rewrite IH by lia. rewrite final_depth_cons.
      rewrite (delta_of_asciiSpace c1 H1). lia. }
    destruct s1 as [|c2 s2]; [done |]. cbn [String.length] in Hn.
    destruct (space2 c2 c1) eqn:H2.
    { rewrite IH by lia. rewrite !final_depth_cons.
      destruct (delta_of_space2 c2 c1 H2) as [-> ->]. lia. }
    destruct s2 as [|c3 s3]; [done |]. cbn [String.length] in Hn.
    destruct (space3 c3 c2 c1) eqn:H3; [| done].
    rewrite IH by lia. rewrite !final_depth_cons.
    destruct (delta_of_space3 c3 c2 c1 H3) as (-> & -> & ->). lia.
Qed.

Lemma final_depth_rev_app (a b : string) :
  final_depth (String.rev_app a b) = final_depth a + final_depth b.
Proof.
  revert b; induction a as [|c a IH]; intros b; cbn [String.rev_app].
  - unfold final_depth at 2. cbn. lia.
  - rewrite IH, !final_depth_cons. lia.
Qed.

Lemma final_depth_rev (s : string) :
  final_depth (String.rev s) = final_depth s.
Proof.
  unfold String.rev. rewrite final_depth_rev_app.
  unfold final_depth at 2. cbn. lia.
Qed.

Lemma final_depth_TrimSpace (s : string) :
  final_depth (TrimSpace s) = final_depth s.
Proof.
  unfold TrimSpace, trimRight.
  rewrite final_depth_rev.
  rewrite (final_depth_trimLeftRev_fuel _ _ (le_n _)).
  rewrite final_depth_rev.
  apply (final_depth_trimLeft_fuel _ _ (le_n _)).
Qed.

Lemma final_depth_SplitN2 (s k : string) (rest : option string) :
  SplitN2 s = (k, rest) ->
  final_depth s = final_depth k
                  + match rest with Some r => final_depth r | None => 0 end.
Proof.
  revert k rest; induction s as [|c s IH]; intros k rest; cbn [SplitN2].
  - intros [= <- <-]. reflexivity.
  - destruct (Ascii.eqb_spec c "=") as [-> | Hc].
    + intros [= <- <-]. rewrite final_depth_cons. reflexivity.
    + destruct (SplitN2 s) as [k' rest']. intros [= <- <-].
      rewrite !final_depth_cons, (IH k' rest' eq_refl). lia.
Qed.

Lemma rev_app_rev_app (a b c : string) :
  String.rev_app (String.rev_app a b) c = String.rev_app b (a +:+ c).
Proof.
  revert b c; induction a as [|x a IH]; intros b c; [done |].
  cbn [String.rev_app]. rewrite IH. reflexivity.
Qed.

Lemma rev_rev (s : string) : String.rev (String.rev s) = s.
Proof.
  unfold String.rev. rewrite rev_app_rev_app. cbn. apply app_nil_r.
Qed.

Lemma rev_app_app (a b : string) :
  String.rev_app a b = String.rev a +:+ b.
Proof.
  unfold String.rev. revert b; induction a as [|x a IH]; intros b; [done |].
  cbn [String.rev_app]. rewrite IH, (IH (String x "")), app_assoc.
  reflexivity.
Qed.

Lemma HasPrefix_char (s : string) (c : ascii) :
  HasPrefix s (String c "") = true -> exists s', s = String c s'.
Proof.
  unfold HasPrefix. destruct s as [|x s]; cbn; [done |].
  destruct (ascii_dec c x) as [-> | _]; [| done]. by exists s.
Qed.

Lemma HasSuffix_char (s : string) (c : ascii) :
  HasSuffix s (String c "") = true -> exists s', s = s' +:+ String c "".
Proof.
  unfold HasSuffix. intros H.
  change (String.rev (String c "")) with (String c "") in H.
  apply HasPrefix_char in H as [y Hy].
  exists (String.rev y).
  rewrite <- (rev_rev s), Hy. unfold String.rev at 1. cbn [String.rev_app].
  apply rev_app_app.
Qed.

Lemma substring_prefix (a b : string) :
  substring 0 (String.length a) (a +:+ b) = a.
Proof.
  induction a as [|x a IH]; [cbn; by destruct b |].
  rewrite app_cons. cbn. by rewrite IH.
Qed.

Lemma final_depth_stripBraces (x : string) :
  final_depth (stripBraces x) = final_depth x.
Proof.
  unfold stripBraces.
  destruct (HasPrefix x "{") eqn:Hp; [| done].
  destruct (HasSuffix x "}") eqn:Hs; [| done]. cbn [andb].
  rewrite final_depth_TrimSpace.
  apply HasPrefix_char in Hp as [x' ->].
  apply HasSuffix_char in Hs as [y Hy].
  destruct y as [|c y].
  { discriminate Hy. }
  rewrite app_cons in Hy. injection Hy as <- ->.
  unfold slice. cbn [String.length].
  rewrite length_app. cbn [String.length substring].
  replace (S (String.length y + 1) - 1 - 1)%nat with (String.length y) by lia.
  rewrite substring_prefix.
  rewrite final_depth_cons, final_depth_app.
  unfold final_depth at 3. cbn. lia.
Qed.

(** The parameter of a balanced segment named each is balanced. *)
Lemma each_parameter_balanced (seg k r : string) :
  final_depth seg = 0 ->
  SplitN2 (TrimSpace seg) = (k, Some r) ->
  TrimSpace k = eachTag ->
  final_depth (stripBraces (TrimSpace (TrimSpace r))) = 0.
Proof.
  intros Hseg Hsplit Hkey.
  rewrite final_depth_stripBraces, !final_depth_TrimSpace.
  pose proof (final_depth_SplitN2 _ _ _ Hsplit) as Hsum.
  rewrite final_depth_TrimSpace, Hseg in Hsum.
  assert (Hk : final_depth k = 0).
  { rewrite <- (final_depth_TrimSpace k), Hkey. reflexivity. }
  lia.
Qed.

End Depth.

(** X20: in the engine the error check after the inner split of an each
    clause never fires: for every segment of an annotation that split, if
    the segment is named each and its parameter is set, the parameter
    (trimmed, one outer brace pair removed) splits as well. *)
Theorem each_inner_split_succeeds
    (rv : rvalue) (n tag seg inner : string) (segs : list string) :
  splitTopLevelByComma tag = inl segs ->
  In seg segs ->
  segment_key seg = eachTag ->
  Param (snd (segmentValue rv n (Str.TrimSpace seg))) = Ret inner ->
  exists innerTags,
    splitTopLevelByComma (stripBraces (Str.TrimSpace inner)) = inl innerTags.
Proof.
  intros Hsplit Hin Hkey Hparam.
  apply split_ok_segments in Hsplit as [Hdepth ->].
  pose proof (segments_from_balanced tag 0 "" eq_refl Hdepth) as Hbal.
  rewrite List.Forall_forall in Hbal. specialize (Hbal seg Hin).
  unfold segment_key in Hkey. unfold segmentValue in Hparam.
  destruct (Str.SplitN2 (Str.TrimSpace seg)) as [k [r|]] eqn:Hcut;
    cbn [fst snd] in *; [| discriminate Hparam].
  rewrite Param_of_param in Hparam.
  destruct (String.eqb (Str.TrimSpace r) ""); [discriminate Hparam |].
  injection Hparam as <-.
  eexists. apply split_of_balanced.
  by apply (each_parameter_balanced seg k r).
Qed.

Lemma each_inner_split_succeeds_witness :
  exists innerTags,
    splitTopLevelByComma (stripBraces (Str.TrimSpace "{ min=1, each={a,b} }"))
    = inl innerTags.
Proof.
  apply (each_inner_split_succeeds (VSlice []) "Creds"
           "required, each = { min=1, each={a,b} } "
           " each = { min=1, each={a,b} } " "{ min=1, each={a,b} }"
           ["required"; " each = { min=1, each={a,b} } "]).
  - reflexivity.
  - right; left; reflexivity.
  - reflexivity.
  - reflexivity.
Defined.

Section NoEachSyntax.
Import Str TagValidator.

Lemma each_value_balanced (part k r : string) :
  final_depth part = 0 ->
  SplitN2 part = (k, Some r) ->
  TrimSpace k = "each" ->
  final_depth (stripBraces (TrimSpace r)) = 0.
Proof.
  intros Hpart Hsplit Hkey.
  rewrite final_depth_stripBraces, final_depth_TrimSpace.
  pose proof (final_depth_SplitN2 _ _ _ Hsplit) as Hsum. cbn beta iota in Hsum.
  assert (Hk : final_depth k = 0).
  { rewrite <- (final_depth_TrimSpace k), Hkey. reflexivity. }
  lia.
Qed.

Lemma no_each_syntax_addError (tv : t) (pos : Position) (f tag : string)
    (msg : message) :
  (forall be, msg <> EachSyntax be) ->
  no_each_syntax tv -> no_each_syntax (addError tv pos f tag msg).
Proof.
  intros Hmsg Htv. unfold no_each_syntax, addError. cbn.
  apply Forall_app. split; [exact Htv |]. by repeat constructor.
Qed.

Lemma no_each_syntax_param (tv : t) (pos : Position)
    (f tag validator p : string) :
  no_each_syntax tv ->
  no_each_syntax (validateValidatorParam tv pos f tag validator p).
Proof.
  intros Htv. unfold validateValidatorParam.
  destruct (_ || _).
  - destruct (Atoi p); [done | by apply no_each_syntax_addError].
  - destruct (String.eqb validator "required"); [| done].
    destruct (negb _); [by apply no_each_syntax_addError | done].
Qed.

Lemma forParts_no_each_syntax (body : t -> string -> option t)
    (segs : list string) :
  (forall p tv tv', In p segs -> no_each_syntax tv ->
                    body tv p = Some tv' -> no_each_syntax tv') ->
  forall tv tv', no_each_syntax tv ->
                 forParts body tv segs = Some tv' -> no_each_syntax tv'.
Proof.
  induction segs as [|p segs IH]; intros Hbody tv tv' Htv; cbn.
  - by intros [= <-].
  - destruct (body tv p) as [tv1|] eqn:H1; [| done].
    apply IH.
    + intros q tq tq' Hq. apply Hbody. by right.
    + apply (Hbody p tv tv1); [by left | done | done].
Qed.

Lemma balanced_segments (s : string) :
  final_depth s = 0 ->
  forall p, In p (segments s) -> final_depth (TrimSpace p) = 0.
Proof.
  intros Hs p Hp. rewrite final_depth_TrimSpace.
  pose proof (segments_from_balanced s 0 "" eq_refl Hs) as Hbal.
  rewrite List.Forall_forall in Hbal. by apply Hbal.
Qed.

Lemma validateTagPart_no_each_syntax (pos : Position) (f full : string)
    (fuel : nat) :
  forall tv part tv',
    final_depth part = 0 -> no_each_syntax tv ->
    validateTagPart fuel tv pos f full part = Some tv' ->
    no_each_syntax tv'.
Proof.
  induction fuel as [|fuel IH]; intros tv part tv' Hpart Htv; [done |].
  cbn [validateTagPart].
  destruct (SplitN2 part) as [k rest] eqn:Hsplit.
  destruct (String.eqb (TrimSpace k) "");
    [intros [= <-]; by apply no_each_syntax_addError |].
  destruct (String.eqb_spec (TrimSpace k) "each") as [Hkey | _].
  - destruct rest as [r|]; [| by intros [= <-]].
    change (if HasPrefix (TrimSpace r) "{" && HasSuffix (TrimSpace r) "}"
            then TrimSpace (slice (TrimSpace r) 1
                              (String.length (TrimSpace r) - 1))
            else TrimSpace r)
      with (stripBraces (TrimSpace r)).
    pose proof (each_value_balanced part k r Hpart Hsplit Hkey) as Hvalue.
    destruct (String.eqb (stripBraces (TrimSpace r)) "");
      [by intros [= <-] |].
    rewrite analyzer_split_is_engine_split, (split_of_balanced _ Hvalue).
    apply forParts_no_each_syntax; [| exact Htv].
    intros p tp tp' Hp Htp.
    destruct (String.eqb (TrimSpace p) ""); [by intros [= <-] |].
    apply IH; [| exact Htp]. by apply (balanced_segments _ Hvalue).
  - destruct (negb (validatorExists tv (TrimSpace k))).
    + destruct (HasPrefix (TrimSpace k) "each:");
        intros [= <-]; by apply no_each_syntax_addError.
    + destruct rest as [r|]; intros [= <-];
        [by apply no_each_syntax_param | done].
Qed.

End NoEachSyntax.

(** X21: the analyzer never reports "invalid syntax in each tag": once the
    annotation as a whole has split, the content of every each clause in
    it, at any nesting depth, splits too, so the diagnostics of an
    annotation never hold that message. *)
Theorem analyzer_never_reports_each_syntax
    (tv tv' : TagValidator.t) (pos : TagValidator.Position) (f tag : string) :
  no_each_syntax tv ->
  TagValidator.validateLakeryTag tv pos f tag = Some tv' ->
  no_each_syntax tv'.
Proof.
  intros Htv. unfold TagValidator.validateLakeryTag.
  rewrite analyzer_split_is_engine_split.
  destruct (splitTopLevelByComma tag) as [segs|err] eqn:Hsplit.
  - apply split_ok_segments in Hsplit as [Hdepth ->].
    apply forParts_no_each_syntax; [| exact Htv].
    intros p tp tp' Hp Htp.
    destruct (String.eqb (Str.TrimSpace p) ""); [by intros [= <-] |].
    apply validateTagPart_no_each_syntax; [| exact Htp].
    by apply (balanced_segments _ Hdepth).
  - intros [= <-]. by apply no_each_syntax_addError.
Qed.

Lemma analyzer_never_reports_each_syntax_witness :
  no_each_syntax
    (TagValidator.mkTagValidator ∅
       [TagValidator.mkTagError (TagValidator.mkPosition "types.go" 9 2)
          "Creds" "each={ }{ , each={x}},}{"
          (TagValidator.UnknownValidator "}{");
        TagValidator.mkTagError (TagValidator.mkPosition "types.go" 9 2)
          "Creds" "each={ }{ , each={x}},}{"
          (TagValidator.UnknownValidator "x");
        TagValidator.mkTagError (TagValidator.mkPosition "types.go" 9 2)
          "Creds" "each={ }{ , each={x}},}{"
          (TagValidator.UnknownValidator "}{")]).
Proof.
  apply (analyzer_never_reports_each_syntax TagValidator.NewTagValidator _
           (TagValidator.mkPosition "types.go" 9 2) "Creds"
           "each={ }{ , each={x}},}{").
  - constructor.
  - reflexivity.
Defined.

(** * Names inside an each clause, unknown names, untagged fields *)

Section Names.
Import Str.

Lemma eachElement_unfold_segment (v : Validator) (fmt : ErrorFormatFunc)
    (ft : StructField) (elem : rvalue) (it : string) :
  (let it := TrimSpace it in
   if String.eqb it "" then ([], Ret None)
   else
     let '(innerKey, eVal) := segmentValue elem (Name ft) it in
     dispatch v fmt ft elem innerKey eVal)
  = if String.eqb (TrimSpace it) "" then ([], Ret None)
    else dispatch v fmt ft elem (segment_key it)
           (snd (segmentValue elem (Name ft) (TrimSpace it))).
Proof.
  cbn zeta. destruct (String.eqb (TrimSpace it) ""); [done |].
  unfold segment_key, segmentValue.
  by destruct (SplitN2 (TrimSpace it)).
Qed.

Lemma dispatch_unregistered (v : Validator) (fmt : ErrorFormatFunc)
    (ft : StructField) (reported : rvalue) (key : string) (arg : Value) :
  validators v !! key = None ->
  dispatch v fmt ft reported key arg = ([], Ret None).
Proof.
  intros Hreg. unfold dispatch, TagValidationFunc in *. by rewrite Hreg.
Qed.

End Names.

(** X22: inside an each clause no name is special: every inner segment is
    looked up in the registry, also one named each, and ignored without a
    registration.  An element whose inner segments are all unregistered
    passes without a callback, so a nested each clause is not applied. *)
Theorem each_inner_names_are_only_looked_up
    (v : Validator) (fmt : ErrorFormatFunc) (ft : StructField)
    (innerTags : list string) (elem : rvalue) :
  Forall (fun it => validators v !! segment_key it = None) innerTags ->
  eachElement v fmt ft innerTags elem = ([], Ret None).
Proof.
  intros Hall. unfold eachElement. apply for_each_all_skip.
  intros it Hin. rewrite List.Forall_forall in Hall.
  rewrite eachElement_unfold_segment.
  destruct (String.eqb (Str.TrimSpace it) ""); [done |].
  apply dispatch_unregistered. by apply Hall.
Qed.

Lemma each_inner_names_are_only_looked_up_witness :
  eachElement NewValidator defaultErrorFormat
    (mkStructField "Rows" [("lakery", "each={each={min=5},dive}")])
    ["each={min=5}"; "dive"] (VSlice [VString "a"])
  = ([], Ret None).
Proof.
  apply (each_inner_names_are_only_looked_up NewValidator defaultErrorFormat
           (mkStructField "Rows" [("lakery", "each={each={min=5},dive}")])
           ["each={min=5}"; "dive"] (VSlice [VString "a"])).
  repeat constructor.
Defined.

(** X23: a segment whose name the analyzer does not know, neither as a
    built-in nor as a discovered custom validator, gets exactly one
    diagnostic: the "did you mean each=" hint when the name starts with
    "each:", and "unknown validator" otherwise; its parameter is not looked
    at. *)
Theorem analyzer_reports_unknown_name_once
    (tv : TagValidator.t) (pos : TagValidator.Position) (f full : string)
    (fuel : nat) (part : string) :
  let key := Str.TrimSpace (fst (Str.SplitN2 part)) in
  key <> "" ->
  TagValidator.validatorExists tv key = false ->
  TagValidator.validateTagPart (S fuel) tv pos f full part
  = Some (TagValidator.addError tv pos f full
            (if Str.HasPrefix key "each:"
             then TagValidator.DidYouMean key
                    (Str.slice key 5 (String.length key))
             else TagValidator.UnknownValidator key)).
Proof.
  cbn zeta. intros Hkey Hunknown. cbn [TagValidator.validateTagPart].
  destruct (Str.SplitN2 part) as [k rest]. cbn [fst] in *.
  destruct (String.eqb_spec (Str.TrimSpace k) ""); [done |].
  destruct (String.eqb_spec (Str.TrimSpace k) "each") as [Heach | _].
  { rewrite Heach in Hunknown. discriminate Hunknown. }
  rewrite Hunknown. cbn [negb].
  by destruct (Str.HasPrefix (Str.TrimSpace k) "each:").
Qed.

Lemma analyzer_reports_unknown_name_once_witness :
  TagValidator.validateTagPart 1 TagValidator.NewTagValidator
    (TagValidator.mkPosition "types.go" 5 2) "Creds" "each:{min=1}"
    "each:{min=1}"
  = Some (TagValidator.addError TagValidator.NewTagValidator
            (TagValidator.mkPosition "types.go" 5 2) "Creds" "each:{min=1}"
            (TagValidator.DidYouMean "each:{min" "{min")).
Proof.
  apply (analyzer_reports_unknown_name_once TagValidator.NewTagValidator
           (TagValidator.mkPosition "types.go" 5 2) "Creds" "each:{min=1}"
           0 "each:{min=1}").
  - discriminate.
  - reflexivity.
Defined.

(** X24: fields without a lakery annotation do not matter: validating a
    record gives the same result, and dispatches the same callbacks, as
    validating the record with those fields left out. *)
Theorem untagged_fields_do_not_matter
    (v : Validator) (fmt : ErrorFormatFunc)
    (fields : list (StructField * rvalue)) :
  validateStruct v fmt fields
  = validateStruct v fmt
      (List.filter
         (fun fv => negb (String.eqb (Get (Tag (fst fv)) mainTag) ""))
         fields).
Proof.
  unfold validateStruct.
  induction fields as [|[ft rv] fields IH]; [done |].
  cbn [List.filter for_each fst snd].
  destruct (String.eqb (Get (Tag ft) mainTag) "") eqn:Htag; cbn [negb].
  - unfold proceedTags at 1. rewrite Htag. by rewrite andThen_nil_l.
  - cbn [for_each fst snd]. by rewrite IH.
Qed.

(** X25: away from the unsigned wrap-around min and max are monotonic.
    For a fixed value and parameters that parse, with non-negative
    parameters in case the value is an unsigned integer (or a pointer to
    one): a passing min=N stays passing for every M <= N, and a passing
    max=N stays passing for every M >= N. *)
Theorem min_max_monotone_off_the_unsigned_wrap
    (rv : rvalue) (n pN pM pM' : string) (N M M' : Z) :
  Str.Atoi pN = Some N -> Str.Atoi pM = Some M -> Str.Atoi pM' = Some M' ->
  M <= N -> N <= M' ->
  (on_unsigned rv = true -> 0 <= M /\ 0 <= N) ->
  (builtinMin (mkValue rv n pN) = Ret None ->
   builtinMin (mkValue rv n pM) = Ret None) /\
  (builtinMax (mkValue rv n pN) = Ret None ->
   builtinMax (mkValue rv n pM') = Ret None).
Proof.
  intros HN HM HM' Hle Hle' Hu. split.
  - apply (builtinMin_monotone rv n pN pM N M); try done.
    intros H. by apply Hu.
  - apply (builtinMax_monotone rv n pN pM' N M'); try done.
    intros H. by apply Hu.
Qed.

Lemma min_max_monotone_off_the_unsigned_wrap_witness :
  (builtinMin (mkValue (VPtr (Some (VInt 2))) "Age" "2") = Ret None ->
   builtinMin (mkValue (VPtr (Some (VInt 2))) "Age" "-1") = Ret None) /\
  (builtinMax (mkValue (VPtr (Some (VInt 2))) "Age" "2") = Ret None ->
   builtinMax (mkValue (VPtr (Some (VInt 2))) "Age" "3") = Ret None).
Proof.
  apply (min_max_monotone_off_the_unsigned_wrap
           (VPtr (Some (VInt 2))) "Age" "2" "-1" "3" 2 (-1) 3);
    try reflexivity; try lia.
  intros H; discriminate H.
Defined.

(** * Registered callbacks and the sources of a panic *)

Section Panics.
Import Str.






End Panics.

(** X26: a registered callback is what the engine calls: for a segment
    whose name is not each, after [RegisterTag] under that name the engine
    dispatches exactly the registered function, once, with the field value,
    the field name and the trimmed parameter, and passes its error through
    the formatter; a built-in registered under that name before is not
    consulted. *)
Theorem registered_callback_is_dispatched
    (v : Validator) (fmt : ErrorFormatFunc) (rv : rvalue) (ft : StructField)
    (seg : string) (fn : TagValidationFunc) :
  Str.TrimSpace seg <> "" ->
  segment_key seg <> eachTag ->
  proceedTag (RegisterTag (segment_key seg) fn v) fmt rv ft seg
  = ([(segment_key seg,
       snd (segmentValue rv (Name ft) (Str.TrimSpace seg)))],
     bind (fn (snd (segmentValue rv (Name ft) (Str.TrimSpace seg))))
          (fun err => match err with
                      | Some e => Ret (fmt ft rv e)
                      | None => Ret None
                      end)).
Proof.
  intros Hblank Hkey. rewrite proceedTag_unfold.
  destruct (String.eqb_spec (Str.TrimSpace seg) ""); [done |]. cbn zeta.
  destruct (String.eqb_spec (segment_key seg) eachTag); [done |].
  unfold dispatch, RegisterTag, TagValidationFunc in *. cbn [validators].
  by rewrite lookup_insert_eq.
Qed.

Lemma registered_callback_is_dispatched_witness :
  proceedTag (RegisterTag (segment_key "min = 3") (fun _ => Ret None)
                          NewValidator)
             defaultErrorFormat (VString "a")
             (mkStructField "Name" [("lakery", "min = 3")]) "min = 3"
  = ([(segment_key "min = 3",
       snd (segmentValue (VString "a") "Name" (Str.TrimSpace "min = 3")))],
     Ret None).
Proof.
  apply (registered_callback_is_dispatched NewValidator defaultErrorFormat
           (VString "a") (mkStructField "Name" [("lakery", "min = 3")])
           "min = 3" (fun _ => Ret None)); discriminate.
Defined.


